(** * LetMeWatchThis: the result pipeline of [bot.js]

    A shallow embedding of the [watch] command handler of [bot.js] and of
    the helpers it is built from, with the properties its specification
    states about them.

    JavaScript strings are sequences of UTF-16 code units; a code unit is
    a number below 65536, kept here as an [N].  Arrays are lists.  The
    length of a string is its number of code units, as [String.length] is. *)

From Stdlib Require Import ZArith NArith Lia String Ascii.
From stdpp Require Import base tactics option list.

Local Open Scope Z_scope.

(** ** Strings of the runtime *)

Abbreviation code_unit := N (only parsing).
Abbreviation jsstring := (list N) (only parsing).

(** A string literal of the source, as code units (the literals of
    [bot.js] are all ASCII). *)
Fixpoint lit (s : string) : jsstring :=
  match s with
  | EmptyString => []
  | String c r => N_of_ascii c :: lit r
  end.

(** [slice(start, end)] of [String.prototype] and [Array.prototype]: a
    negative index counts from the end, every index is clamped to
    [0..length], and an empty range gives the empty sequence. *)
Definition relative_index (len i : Z) : Z :=
  if i <? 0 then Z.max (len + i) 0 else Z.min i len.

Definition slice {A : Type} (l : list A) (start stop : Z) : list A :=
  let len := Z.of_nat (length l) in
  let from := relative_index len start in
  let to := relative_index len stop in
  take (Z.to_nat (to - from)) (drop (Z.to_nat from) l).

(** [bot.js], lines 14-16:
    [return str.length > maxLen ? str.slice(0, maxLen - 3) + '...' : str;] *)
Definition truncateString (str : jsstring) (maxLen : Z) : jsstring :=
  if Z.of_nat (length str) >? maxLen
  then slice str 0 (maxLen - 3) ++ lit "..."
  else str.


(** The code units that [String.prototype.trim] strips and that the
    regular expression class [\s] matches: the White_Space and
    LineTerminator code points of ECMAScript (all in the basic plane). *)
Definition is_white_space (c : code_unit) : bool :=
  ((c =? 0x09) || (c =? 0x0A) || (c =? 0x0B) || (c =? 0x0C) || (c =? 0x0D)
   || (c =? 0x20) || (c =? 0xA0) || (c =? 0x1680)
   || ((0x2000 <=? c) && (c <=? 0x200A))
   || (c =? 0x2028) || (c =? 0x2029) || (c =? 0x202F) || (c =? 0x205F)
   || (c =? 0x3000) || (c =? 0xFEFF))%N.

Fixpoint trimStart (s : jsstring) : jsstring :=
  match s with
  | [] => []
  | c :: r => if is_white_space c then trimStart r else s
  end.

Definition trimEnd (s : jsstring) : jsstring := rev (trimStart (rev s)).

(** [String.prototype.trim] *)
Definition trim (s : jsstring) : jsstring := trimEnd (trimStart s).

(** [s.startsWith(sub)] and [s.includes(sub)]: is [sub] found at the start
    of [s], respectively at some position of [s]. *)
Fixpoint startsWith (s sub : jsstring) {struct sub} : bool :=
  match sub, s with
  | [], _ => true
  | _ :: _, [] => false
  | a :: sub', b :: s' => (a =? b)%N && startsWith s' sub'
  end.

Fixpoint includes (s sub : jsstring) : bool :=
  startsWith s sub ||
  match s with
  | [] => false
  | _ :: r => includes r sub
  end.

(** [a === b] on strings *)
Fixpoint strict_equal (a b : jsstring) : bool :=
  match a, b with
  | [], [] => true
  | x :: a', y :: b' => (x =? y)%N && strict_equal a' b'
  | _, _ => false
  end.

(** A string is truthy when it is not empty. *)
Definition truthy (s : jsstring) : bool :=
  match s with [] => false | _ :: _ => true end.

(** [s.replace(/\s+/g, by)]: every maximal run of white space becomes one
    copy of [by] (the replacement strings of [bot.js], ['-'] and ['+'],
    hold no [$] pattern).  [in_run] tells that the code unit before the
    current one was white space. *)
Fixpoint replace_runs (by_ : jsstring) (in_run : bool) (s : jsstring) : jsstring :=
  match s with
  | [] => []
  | c :: r =>
      if is_white_space c
      then (if in_run then [] else by_) ++ replace_runs by_ true r
      else c :: replace_runs by_ false r
  end.

Definition replace_whitespace (s by_ : jsstring) : jsstring :=
  replace_runs by_ false s.

(** [String.prototype.toLowerCase] follows the case mappings of the Unicode
    character database; it is the runtime's, and the development is
    parametric in it. *)
Class Runtime := toLowerCase : jsstring -> jsstring.

(** On a string of ASCII code units, [toLowerCase] turns [A]-[Z] into
    [a]-[z] and leaves every other code unit as it is. *)
Definition is_ascii (c : code_unit) : bool := (c <? 0x80)%N.

Definition ascii_lower (c : code_unit) : code_unit :=
  if ((0x41 <=? c) && (c <=? 0x5A))%N then (c + 0x20)%N else c.

Definition AsciiLowering (R : Runtime) : Prop :=
  forall s : jsstring,
    forallb is_ascii s = true -> @toLowerCase R s = map ascii_lower s.

(** The runtime restricted to the ASCII case mappings, to run the
    definitions on ASCII inputs. *)
Definition ascii_runtime : Runtime := map ascii_lower.

(** ** Exceptions *)

Inductive error : Type :=
| URIError       (* encodeURIComponent on a lone surrogate *)
| TypeError      (* a property read or a method call on undefined or null *)
| RequestError   (* axios.get rejects *)
| ReplyError.    (* interaction.reply rejects *)

Inductive completion (A : Type) : Type :=
| Normal (a : A)
| Throws (e : error).
Arguments Normal {A} a.
Arguments Throws {A} e.

Definition cbind {A B : Type} (c : completion A) (f : A -> completion B)
  : completion B :=
  match c with
  | Normal a => f a
  | Throws e => Throws e
  end.

Definition cmap {A B : Type} (f : A -> B) (c : completion A) : completion B :=
  cbind c (fun a => Normal (f a)).

(** ** [encodeURIComponent] *)

(** The code units it leaves as they are: letters, digits and the marks
    [- _ . ! ~ * ' ( )]. *)
Definition is_unescaped (c : code_unit) : bool :=
  (((0x41 <=? c) && (c <=? 0x5A)) || ((0x61 <=? c) && (c <=? 0x7A))
   || ((0x30 <=? c) && (c <=? 0x39))
   || (c =? 0x2D) || (c =? 0x5F) || (c =? 0x2E) || (c =? 0x21) || (c =? 0x7E)
   || (c =? 0x2A) || (c =? 0x27) || (c =? 0x28) || (c =? 0x29))%N.

Definition is_leading_surrogate (c : code_unit) : bool :=
  ((0xD800 <=? c) && (c <=? 0xDBFF))%N.

Definition is_trailing_surrogate (c : code_unit) : bool :=
  ((0xDC00 <=? c) && (c <=? 0xDFFF))%N.

Definition hex_digit (n : N) : code_unit :=
  (if n <? 10 then 0x30 + n else 0x41 + (n - 10))%N.

(** One octet as [%XX], in upper-case hexadecimal. *)
Definition percent_octet (b : N) : jsstring :=
  [0x25%N; hex_digit (b / 16); hex_digit (b mod 16)].

(** The UTF-8 octets of a code point. *)
Definition utf8 (cp : N) : list N :=
  (if cp <? 0x80 then [cp]
   else if cp <? 0x800 then [0xC0 + cp / 0x40; 0x80 + cp mod 0x40]
   else if cp <? 0x10000 then
     [0xE0 + cp / 0x1000; 0x80 + (cp / 0x40) mod 0x40; 0x80 + cp mod 0x40]
   else
     [0xF0 + cp / 0x40000; 0x80 + (cp / 0x1000) mod 0x40;
      0x80 + (cp / 0x40) mod 0x40; 0x80 + cp mod 0x40])%N.

Definition percent_encode (cp : N) : jsstring :=
  flat_map percent_octet (utf8 cp).

Definition surrogate_pair (lead trail : code_unit) : N :=
  ((lead - 0xD800) * 0x400 + (trail - 0xDC00) + 0x10000)%N.

(** The Encode operation of ECMAScript with the unescaped set of
    [encodeURIComponent]; a surrogate without its partner raises
    [URIError]. *)
Fixpoint encodeURIComponent (s : jsstring) : completion jsstring :=
  match s with
  | [] => Normal []
  | c :: r =>
      if is_unescaped c then cmap (cons c) (encodeURIComponent r)
      else if is_trailing_surrogate c then Throws URIError
      else if is_leading_surrogate c then
        match r with
        | d :: r' =>
            if is_trailing_surrogate d
            then cmap (app (percent_encode (surrogate_pair c d)))
                      (encodeURIComponent r')
            else Throws URIError
        | [] => Throws URIError
        end
      else cmap (app (percent_encode c)) (encodeURIComponent r)
  end.

(** [s.replace(/([()])/g, encodeURIComponent)]: each parenthesis is
    replaced by what the callback returns for it (the callback is called
    with the match first; [encodeURIComponent] reads that argument only). *)
Definition is_paren (c : code_unit) : bool := ((c =? 0x28) || (c =? 0x29))%N.

Fixpoint replace_parens (s : jsstring) : completion jsstring :=
  match s with
  | [] => Normal []
  | c :: r =>
      if is_paren c
      then cbind (encodeURIComponent [c]) (fun e =>
           cmap (app e) (replace_parens r))
      else cmap (cons c) (replace_parens r)
  end.

(** The two forms of the title in the search URLs, [bot.js] lines 69 and
    85: [encodeURIComponent(mediaTitle.replace(/\s+/g, '-'))] and
    [encodeURIComponent(mediaTitle.replace(/\s+/g, '+')
                                  .replace(/([()])/g, encodeURIComponent))]. *)
Definition hyphenForm (mediaTitle : jsstring) : completion jsstring :=
  encodeURIComponent (replace_whitespace mediaTitle (lit "-")).

Definition plusForm (mediaTitle : jsstring) : completion jsstring :=
  cbind (replace_parens (replace_whitespace mediaTitle (lit "+")))
        encodeURIComponent.

(** ** The link extractor *)

(** What cheerio gives for a selector: the matched [a] elements in
    document order, each with its [href] attribute (if it has one) and its
    text content. *)
Record anchor : Type := { href : option jsstring; text : jsstring }.

Abbreviation selection := (list anchor) (only parsing).

(** [.attr('href')] reads the attribute of the first matched element and is
    [undefined] when there is none; [.text()] joins the text of all of
    them. *)
Definition attr_href (sel : selection) : option jsstring :=
  match sel with
  | [] => None
  | a :: _ => href a
  end.

Definition text_of (sel : selection) : jsstring := flat_map text sel.

(** A value placed in a template literal: [undefined] prints as the word. *)
Definition interpolate (v : option jsstring) : jsstring :=
  match v with
  | Some s => s
  | None => lit "undefined"
  end.

(** [{ title: ..., link: ... }] *)
Record candidate : Type := { title : jsstring; link : jsstring }.

(** The body of the two scan loops, [bot.js] lines 76-81 and 92-97, for
    the element selected at one position; [push] appends. *)
Definition scan_position (base : jsstring) (mediaLinkElement : selection)
    (links : list candidate) : list candidate :=
  let mediaLink := base ++ interpolate (attr_href mediaLinkElement) in
  let mediaTitle := trim (text_of mediaLinkElement) in
  if truthy mediaLink && truthy mediaTitle
  then links ++ [{| title := truncateString mediaTitle 100; link := mediaLink |}]
  else links.

(** [for (let i = first; ...; i++)] run for [steps] rounds on a state. *)
Fixpoint for_loop {S : Type} (i steps : nat) (body : nat -> S -> S) (s : S) : S :=
  match steps with
  | O => s
  | Datatypes.S n => for_loop (Datatypes.S i) n body (body i s)
  end.

Definition scan (base : jsstring) (dom : nat -> selection) (first bound : nat)
  : list candidate :=
  for_loop first (bound - first)
           (fun i links => scan_position base (dom i) links) [].

Definition primewire_base : jsstring := lit "https://primewire.tf".
Definition fmovies_base : jsstring := lit "https://en.fmoviesz-to.com".

(** [dom i] is [$primewire(`div.fbr-content.fbr-line:nth-of-type(${i}) a`)],
    respectively [$fmovies(`div.item:nth-of-type(${i}) .meta a`)]. *)
Definition primewireLinks (dom : nat -> selection) : list candidate :=
  scan primewire_base dom 2 22.

Definition fmoviesLinks (dom : nat -> selection) : list candidate :=
  scan fmovies_base dom 1 21.

(** ** The relevance filter *)

(** The callback of [filter], [bot.js] lines 101-102.  [Title] is the
    [Title] property of the metadata record, which is [undefined] when the
    record has none: [||] reads it only when the first test fails. *)
Definition is_relevant `{Runtime} (mediaTitle : jsstring)
    (Title : option jsstring) (l : candidate) : completion bool :=
  if includes (toLowerCase (title l)) (toLowerCase mediaTitle)
  then Normal true
  else match Title with
       | Some t => Normal (includes (toLowerCase t) (toLowerCase (title l)))
       | None => Throws TypeError
       end.

(** [Array.prototype.filter] with a callback that may throw. *)
Fixpoint filter_array {A : Type} (f : A -> completion bool) (l : list A)
  : completion (list A) :=
  match l with
  | [] => Normal []
  | x :: r =>
      cbind (f x) (fun keep =>
      cmap (fun kept => if keep then x :: kept else kept) (filter_array f r))
  end.

(** [links.filter(...).slice(0, 5)] *)
Definition filteredLinks `{Runtime} (mediaTitle : jsstring)
    (Title : option jsstring) (links : list candidate)
  : completion (list candidate) :=
  cmap (fun kept => slice kept 0 5)
       (filter_array (is_relevant mediaTitle Title) links).

(** ** The reply *)

Record rating : Type := { Source : option jsstring; Value : option jsstring }.

(** The record of the metadata service, as far as the handler reads it; a
    property the record lacks is [None]. *)
Record media : Type := {
  Response : option jsstring;
  Title : option jsstring;
  Year : option jsstring;
  imdbRating : option jsstring;
  Ratings : option (list rating);
  Plot : option jsstring;
  Poster : option jsstring
}.

(** The data handed to [EmbedBuilder]; what the builder itself checks is
    not part of the model. *)
Record field : Type := { name : jsstring; value : jsstring }.

Record embed : Type := {
  embed_title : option jsstring;
  embed_color : Z;
  embed_description : jsstring;
  embed_thumbnail : option jsstring;
  embed_fields : list field
}.

Inductive payload : Type :=
| Text (s : jsstring)
| Embeds (es : list embed).

Definition newline : jsstring := [0x0A%N].

(** [Array.prototype.join] *)
Fixpoint join (sep : jsstring) (l : list jsstring) : jsstring :=
  match l with
  | [] => []
  | x :: r =>
      match r with
      | [] => x
      | _ :: _ => x ++ sep ++ join sep r
      end
  end.

(** [Ratings.find(rating => rating.Source === 'Rotten Tomatoes')?.Value || 'N/A'] *)
Definition rotten_tomatoes (ratings : list rating) : jsstring :=
  match List.find (fun r => match Source r with
                            | Some s => strict_equal s (lit "Rotten Tomatoes")
                            | None => false
                            end) ratings with
  | Some r => match Value r with
              | Some v => if truthy v then v else lit "N/A"
              | None => lit "N/A"
              end
  | None => lit "N/A"
  end.

Definition description (mediaData : media) : completion jsstring :=
  match Ratings mediaData with
  | None => Throws TypeError
  | Some ratings =>
      Normal (lit "Release Year: " ++ interpolate (Year mediaData) ++ newline
              ++ lit "IMDB Rating: " ++ interpolate (imdbRating mediaData) ++ newline
              ++ lit "Rotten Tomatoes Rating: " ++ rotten_tomatoes ratings
              ++ newline ++ newline ++ interpolate (Plot mediaData))
  end.

Definition markdown_link (l : candidate) : jsstring :=
  lit "[" ++ title l ++ lit "](" ++ link l ++ lit ")".

Definition results_field (heading : jsstring) (links : list candidate) : field :=
  {| name := heading;
     value := if (0 <? length links)%nat
              then join newline (map markdown_link links)
              else lit "No results found." |}.

(** ** The handler *)

(** The body of a response of [axios.get]: read as the metadata record
    ([None] when it is [null] or [undefined], where reading a property
    throws) and as the document cheerio loads from it, queried at the
    positions of the two selectors. *)
Record body : Type := {
  json : option media;
  primewire_dom : nat -> selection;
  fmovies_dom : nat -> selection
}.

(** What the handler does to the outside, in the order of its [await]s. *)
Inductive prog (A : Type) : Type :=
| Ret (a : A)
| Throw (e : error)
| AxiosGet (url : jsstring) (k : completion body -> prog A)
| InteractionReply (p : payload) (k : completion unit -> prog A)
| ConsoleError (e : error) (k : prog A).
Arguments Ret {A} a.
Arguments Throw {A} e.
Arguments AxiosGet {A} url k.
Arguments InteractionReply {A} p k.
Arguments ConsoleError {A} e k.

Fixpoint bind {A B : Type} (p : prog A) (f : A -> prog B) : prog B :=
  match p with
  | Ret a => f a
  | Throw e => Throw e
  | AxiosGet url k => AxiosGet url (fun r => bind (k r) f)
  | InteractionReply m k => InteractionReply m (fun r => bind (k r) f)
  | ConsoleError e k => ConsoleError e (bind k f)
  end.

Notation "x <- p ;; q" := (bind p (fun x => q))
  (at level 100, p at next level, right associativity).

(** [try { p } catch (error) { h error }] *)
Fixpoint try_catch {A : Type} (p : prog A) (h : error -> prog A) : prog A :=
  match p with
  | Ret a => Ret a
  | Throw e => h e
  | AxiosGet url k => AxiosGet url (fun r => try_catch (k r) h)
  | InteractionReply m k => InteractionReply m (fun r => try_catch (k r) h)
  | ConsoleError e k => ConsoleError e (try_catch k h)
  end.

Definition lift {A : Type} (c : completion A) : prog A :=
  match c with
  | Normal a => Ret a
  | Throws e => Throw e
  end.

Definition await_get (url : jsstring) : prog body := AxiosGet url lift.

Definition await_reply (p : payload) : prog unit := InteractionReply p lift.

(** [mediaData.Response === 'False'] *)
Definition response_is_False (mediaData : media) : bool :=
  match Response mediaData with
  | Some r => strict_equal r (lit "False")
  | None => false
  end.

(** [`http://www.omdbapi.com/?apikey=${omdbApiKey}&t=${t}`], for the
    encoded title [t]. *)
Definition omdbUrl (omdbApiKey t : jsstring) : jsstring :=
  lit "http://www.omdbapi.com/?apikey=" ++ omdbApiKey ++ lit "&t=" ++ t.

(** The [try] block of the [watch] command, [bot.js] lines 59-124. *)
Definition watch `{Runtime} (omdbApiKey mediaTitle : jsstring) : prog unit :=
  t <- lift (encodeURIComponent mediaTitle) ;;
  omdbResponse <- await_get (omdbUrl omdbApiKey t) ;;
  mediaData <- lift (match json omdbResponse with
                     | Some m => Normal m
                     | None => Throws TypeError
                     end) ;;
  if response_is_False mediaData
  then await_reply (Text (lit "Media not found."))
  else
    h <- lift (hyphenForm mediaTitle) ;;
    primewireResponse <- await_get (lit "https://primewire.tf/search/" ++ h) ;;
    let primewire := primewireLinks (primewire_dom primewireResponse) in
    p <- lift (plusForm mediaTitle) ;;
    fmoviesResponse <- await_get (lit "https://en.fmoviesz-to.com/filter?keyword="
                                  ++ p) ;;
    let fmovies := fmoviesLinks (fmovies_dom fmoviesResponse) in
    filteredPrimewireLinks <-
      lift (filteredLinks mediaTitle (Title mediaData) primewire) ;;
    filteredFmoviesLinks <-
      lift (filteredLinks mediaTitle (Title mediaData) fmovies) ;;
    text <- lift (description mediaData) ;;
    await_reply (Embeds [
      {| embed_title := Title mediaData;
         embed_color := 0x0099FF;
         embed_description := text;
         embed_thumbnail := Poster mediaData;
         embed_fields :=
           [results_field (lit "Top Primewire Results:") filteredPrimewireLinks;
            results_field (lit "Top Fmovies Results:") filteredFmoviesLinks] |}]).

Record interaction : Type := {
  isCommand : bool;
  commandName : jsstring;
  option_title : option jsstring   (* options.getString('title') *)
}.

(** The [interactionCreate] listener, [bot.js] lines 44-130. *)
Definition interactionCreate `{Runtime} (omdbApiKey : jsstring)
    (i : interaction) : prog unit :=
  if negb (isCommand i) then Ret tt
  else if strict_equal (commandName i) (lit "ping")
  then await_reply (Text (lit "Pong!"))
  else if strict_equal (commandName i) (lit "watch")
  then
    match option_title i with
    | Some mediaTitle =>
        if truthy mediaTitle
        then try_catch (watch omdbApiKey mediaTitle) (fun error =>
               ConsoleError error
                 (await_reply
                    (Text (lit "An error occurred while fetching media data."))))
        else await_reply (Text (lit "Please provide a movie or TV show title."))
    | None => await_reply (Text (lit "Please provide a movie or TV show title."))
    end
  else Ret tt.

(** The outside world answers each request and each reply; running a
    program against it gives the events in order and how it completes. *)
Record world : Type := {
  respond : jsstring -> completion body;
  deliver : payload -> completion unit
}.

Inductive event : Type :=
| Requested (url : jsstring)
| Replied (p : payload)
| Logged (e : error).

Fixpoint run {A : Type} (w : world) (p : prog A) : list event * completion A :=
  match p with
  | Ret a => ([], Normal a)
  | Throw e => ([], Throws e)
  | AxiosGet url k =>
      let '(t, r) := run w (k (respond w url)) in (Requested url :: t, r)
  | InteractionReply m k =>
      let '(t, r) := run w (k (deliver w m)) in (Replied m :: t, r)
  | ConsoleError e k =>
      let '(t, r) := run w k in (Logged e :: t, r)
  end.

Definition requests (t : list event) : list jsstring :=
  flat_map (fun e => match e with Requested u => [u] | _ => [] end) t.

Definition replies (t : list event) : list payload :=
  flat_map (fun e => match e with Replied m => [m] | _ => [] end) t.

(** ** Notions the properties are stated with *)

(** [sub] occurs in [s] as a run of adjacent code units. *)
Definition substring_of (sub s : jsstring) : Prop :=
  exists pre post : jsstring, s = pre ++ sub ++ post.

(** The two containments of the relevance test, as one boolean, for a
    metadata record that has a title. *)
Definition relevant `{Runtime} (mediaTitle canonical : jsstring)
    (l : candidate) : bool :=
  includes (toLowerCase (title l)) (toLowerCase mediaTitle)
  || includes (toLowerCase canonical) (toLowerCase (title l)).

(** What one position contributes to the candidate list. *)
Definition extracted (base : jsstring) (sel : selection) : list candidate :=
  scan_position base sel [].

(** ** Inputs the properties are run on *)

(** A results page whose entry at position 2 is [<a>Inception</a>], an
    anchor without [href], and whose entry at position 3 is
    [<a href="">Heat</a>]. *)
Definition page_without_href (i : nat) : selection :=
  match i with
  | 2%nat => [{| href := None; text := lit "Inception" |}]
  | 3%nat => [{| href := Some []; text := lit "Heat" |}]
  | _ => []
  end.

(** A label of 101 code units, and a results page that lists it at
    position 2. *)
Definition long_label : jsstring := repeat 0x61%N 101.

Definition page_with_long_label (i : nat) : selection :=
  match i with
  | 2%nat => [{| href := Some (lit "/movie/1"); text := long_label |}]
  | _ => []
  end.

(** The [watch] command with a title, and a world in which the metadata
    service knows no title and every reply is delivered. *)
Definition watch_command (mediaTitle : jsstring) : interaction :=
  {| isCommand := true;
     commandName := lit "watch";
     option_title := Some mediaTitle |}.

Definition no_match : media :=
  {| Response := Some (lit "False"); Title := None; Year := None;
     imdbRating := None; Ratings := None; Plot := None; Poster := None |}.

Definition world_without_match : world :=
  {| respond := fun _ =>
       Normal {| json := Some no_match;
                 primewire_dom := page_with_long_label;
                 fmovies_dom := page_with_long_label |};
     deliver := fun _ => Normal tt |}.

(** ** Notions the further properties are stated with *)

(** A code unit of a string is below 65536. *)
Definition is_code_unit (c : N) : bool := (c <? 0x10000)%N.

(** What may stand in any part of a URL without a meaning of its own: the
    code units [encodeURIComponent] leaves alone, and the percent sign of
    its escapes. *)
Definition url_safe (c : code_unit) : bool := is_unescaped c || (c =? 0x25)%N.

(** [String.prototype.isWellFormed]: no surrogate stands without its
    partner. *)
Fixpoint isWellFormed (s : jsstring) : bool :=
  match s with
  | [] => true
  | c :: r =>
      if is_trailing_surrogate c then false
      else if is_leading_surrogate c then
        match r with
        | d :: r' => is_trailing_surrogate d && isWellFormed r'
        | [] => false
        end
      else isWellFormed r
  end.

(** The URLs of the two searches, for the encoded forms of the title, and
    the requests of one [watch] command in the order it makes them. *)
Definition primewireUrl (h : jsstring) : jsstring :=
  lit "https://primewire.tf/search/" ++ h.

Definition fmoviesUrl (p : jsstring) : jsstring :=
  lit "https://en.fmoviesz-to.com/filter?keyword=" ++ p.

Definition request_urls (omdbApiKey mediaTitle : jsstring) : list jsstring :=
  match encodeURIComponent mediaTitle, hyphenForm mediaTitle,
        plusForm mediaTitle with
  | Normal t, Normal h, Normal p =>
      [omdbUrl omdbApiKey t; primewireUrl h; fmoviesUrl p]
  | _, _, _ => []
  end.

(** The reply of the [catch] block. *)
Definition error_reply : payload :=
  Text (lit "An error occurred while fetching media data.").

(** A world in which every request fails, and one in which every request
    is answered with the same body and every reply is delivered. *)
Definition offline_world : world :=
  {| respond := fun _ => Throws RequestError;
     deliver := fun _ => Normal tt |}.

Definition world_answering (b : body) : world :=
  {| respond := fun _ => Normal b;
     deliver := fun _ => Normal tt |}.

Definition inception : media :=
  {| Response := Some (lit "True");
     Title := Some (lit "Inception");
     Year := Some (lit "2010");
     imdbRating := Some (lit "8.8");
     Ratings := Some [{| Source := Some (lit "Internet Movie Database");
                         Value := Some (lit "8.8/10") |};
                      {| Source := Some (lit "Rotten Tomatoes");
                         Value := Some (lit "87%") |}];
     Plot := Some (lit "A thief who steals corporate secrets.");
     Poster := Some (lit "https://img.example/inception.jpg") |}.

Definition inception_page (i : nat) : selection :=
  match i with
  | 2%nat => [{| href := Some (lit "/movie/inception");
                 text := lit " Inception (2010) " |}]
  | 3%nat => [{| href := Some (lit "/movie/interstellar");
                 text := lit "Interstellar" |}]
  | _ => []
  end.

Definition inception_body : body :=
  {| json := Some inception;
     primewire_dom := inception_page;
     fmovies_dom := inception_page |}.

(** ** [slice] and [truncateString] *)

Lemma slice_prefix {A : Type} (l : list A) (n : Z) :
  0 <= n -> slice l 0 n = take (Z.to_nat n) l.
Proof.
  intros Hn. unfold slice, relative_index. simpl.
  destruct (n <? 0) eqn:E; [apply Z.ltb_lt in E; lia|].
  rewrite (Z.min_l 0) by lia. rewrite Z.sub_0_r. change (Z.to_nat 0) with 0%nat.
  rewrite drop_0.
  destruct (Z.le_gt_cases n (Z.of_nat (length l))) as [Hle|Hgt].
  - now rewrite Z.min_l by lia.
  - rewrite Z.min_r by lia. rewrite Nat2Z.id.
    rewrite !take_ge; [reflexivity|lia|lia].
Qed.

Lemma truncateString_short (s : jsstring) (maxLen : Z) :
  Z.of_nat (length s) <= maxLen -> truncateString s maxLen = s.
Proof.
  intros H. unfold truncateString.
  destruct (Z.of_nat (length s) >? maxLen) eqn:E; [|reflexivity].
  apply Z.gtb_lt in E. lia.
Qed.

Lemma truncateString_long (s : jsstring) (maxLen : Z) :
  3 <= maxLen -> maxLen < Z.of_nat (length s) ->
  truncateString s maxLen = take (Z.to_nat (maxLen - 3)) s ++ lit "...".
Proof.
  intros H3 H. unfold truncateString.
  destruct (Z.of_nat (length s) >? maxLen) eqn:E.
  - rewrite slice_prefix by lia. reflexivity.
  - rewrite Z.gtb_ltb in E. apply Z.ltb_ge in E. lia.
Qed.

Lemma truncateString_long_length (s : jsstring) (maxLen : Z) :
  3 <= maxLen -> maxLen < Z.of_nat (length s) ->
  Z.of_nat (length (truncateString s maxLen)) = maxLen.
Proof.
  intros H3 H. rewrite truncateString_long by assumption.
  rewrite length_app, length_take. simpl. lia.
Qed.

Lemma truncateString_100_length (s : jsstring) :
  (length (truncateString s 100) <= 100)%nat.
Proof.
  destruct (Z.le_gt_cases (Z.of_nat (length s)) 100) as [Hle|Hgt].
  - rewrite truncateString_short by assumption. lia.
  - pose proof (truncateString_long_length s 100 ltac:(lia) ltac:(lia)). lia.
Qed.

(** C5: [truncateString s 100] is [s] itself when [s] has at most 100 code
    units; otherwise it has exactly 100 code units and ends with ["..."]. *)
Theorem truncateString_100 (s : jsstring) :
  ((length s <= 100)%nat -> truncateString s 100 = s) /\
  ((100 < length s)%nat ->
     length (truncateString s 100) = 100%nat /\
     lit "..." `suffix_of` truncateString s 100).
Proof.
  split; intros Hlen.
  - apply truncateString_short. lia.
  - split.
    + pose proof (truncateString_long_length s 100 ltac:(lia) ltac:(lia)). lia.
    + rewrite truncateString_long by lia. apply suffix_app_r. reflexivity.
Qed.

Lemma truncateString_100_witness :
  truncateString (lit "Heat") 100 = lit "Heat" /\
  length (truncateString (repeat 0x61%N 101) 100) = 100%nat /\
  lit "..." `suffix_of` truncateString (repeat 0x61%N 101) 100.
Proof.
  split.
  - apply (proj1 (truncateString_100 (lit "Heat"))). simpl. lia.
  - apply (proj2 (truncateString_100 (repeat 0x61%N 101))). simpl. lia.
Defined.

(** C10: truncating to 100 twice is the same as truncating once. *)
Theorem truncateString_100_idempotent (s : jsstring) :
  truncateString (truncateString s 100) 100 = truncateString s 100.
Proof.
  apply truncateString_short.
  pose proof (truncateString_100_length s). lia.
Qed.

(** With a maximum below 3 the slice end [maxLen - 3] is negative and
    counts from the end of the string: the result keeps all but the last
    [3 - maxLen] code units and then adds the three dots. *)
Lemma truncateString_small_maxLen (s : jsstring) (maxLen : Z) :
  maxLen < 3 -> maxLen < Z.of_nat (length s) ->
  truncateString s maxLen
  = take (length s - Z.to_nat (3 - maxLen)) s ++ lit "...".
Proof.
  intros Hm Hlen. unfold truncateString.
  destruct (Z.of_nat (length s) >? maxLen) eqn:E.
  2:{ rewrite Z.gtb_ltb in E. apply Z.ltb_ge in E. lia. }
  f_equal. unfold slice, relative_index. simpl (0 <? 0).
  cbv iota. rewrite (Z.min_l 0) by lia. rewrite Z.sub_0_r.
  change (Z.to_nat 0) with 0%nat. rewrite drop_0.
  destruct (maxLen - 3 <? 0) eqn:E3.
  - f_equal. lia.
  - apply Z.ltb_ge in E3. lia.
Qed.

Lemma truncateString_total (s : jsstring) (maxLen : Z) :
  exists r : jsstring, truncateString s maxLen = r.
Proof. eexists. reflexivity. Qed.

(** C6: with a maximum of 2, ["abcd"] becomes ["abc..."], six code units
    long, where the specification allows three. *)
Theorem truncateString_maxLen_2_overflows :
  truncateString (lit "abcd") 2 = lit "abc..." /\
  (3 < length (truncateString (lit "abcd") 2))%nat.
Proof. split; [reflexivity | simpl; lia]. Qed.

(** ** The definitions on some inputs *)

Example trim_example : trim (lit "  The Matrix ") = lit "The Matrix".
Proof. reflexivity. Qed.

Example slice_negative_end : slice (lit "abcdef") 0 (-2) = lit "abcd".
Proof. reflexivity. Qed.

Example hyphenForm_example :
  hyphenForm (lit "The  Dark Knight") = Normal (lit "The-Dark-Knight").
Proof. reflexivity. Qed.

Example encodeURIComponent_example :
  encodeURIComponent (lit "Am" ++ [0xE9%N] ++ lit "lie & co")
  = Normal (lit "Am%C3%A9lie%20%26%20co").
Proof. reflexivity. Qed.

Example encodeURIComponent_pair :
  encodeURIComponent [0xD83D%N; 0xDE00%N] = Normal (lit "%F0%9F%98%80").
Proof. reflexivity. Qed.

Example encodeURIComponent_lone_surrogate :
  encodeURIComponent [0xD83D%N] = Throws URIError.
Proof. reflexivity. Qed.

Example three_candidates_two_relevant :
  @filteredLinks ascii_runtime (lit "Inception") (Some (lit "Inception"))
    [{| title := lit "Inception (2010)"; link := lit "/a" |};
     {| title := lit "Interstellar"; link := lit "/b" |};
     {| title := lit "INCEPTION: The Cobol Job"; link := lit "/c" |}]
  = Normal [{| title := lit "Inception (2010)"; link := lit "/a" |};
            {| title := lit "INCEPTION: The Cobol Job"; link := lit "/c" |}].
Proof. reflexivity. Qed.

(** ** [includes] *)

Lemma startsWith_prefix (s sub : jsstring) :
  startsWith s sub = true <-> sub `prefix_of` s.
Proof.
  revert s. induction sub as [|a sub IH]; intros s; simpl.
  - split; [intros _; apply prefix_nil | reflexivity].
  - destruct s as [|b s].
    + split; [discriminate | intros Hp; destruct (prefix_nil_not _ _ Hp)].
    + rewrite andb_true_iff, N.eqb_eq, IH. split.
      * intros [-> Hp]. apply prefix_cons, Hp.
      * intros Hp. split.
        -- apply (prefix_cons_inv_1 _ _ _ _ Hp).
        -- apply (prefix_cons_inv_2 _ _ _ _ Hp).
Qed.

Lemma includes_substring (s sub : jsstring) :
  includes s sub = true <-> substring_of sub s.
Proof.
  induction s as [|c s IH]; simpl.
  - rewrite orb_false_r, startsWith_prefix. split.
    + intros [post Hp]. exists [], post. exact Hp.
    + intros (pre & post & Hp). symmetry in Hp.
      apply app_eq_nil in Hp as [_ Hp]. apply app_eq_nil in Hp as [-> _].
      apply prefix_nil.
  - rewrite orb_true_iff, IH, startsWith_prefix. split.
    + intros [[post Hp] | (pre & post & ->)].
      * exists [], post. exact Hp.
      * exists (c :: pre), post. reflexivity.
    + intros (pre & post & Hp). destruct pre as [|c' pre]; simpl in Hp.
      * left. exists post. exact Hp.
      * right. injection Hp as _ ->. exists pre, post. reflexivity.
Qed.

Lemma includes_refl (s : jsstring) : includes s s = true.
Proof.
  apply includes_substring. exists [], []. rewrite app_nil_r. reflexivity.
Qed.

(** ** The relevance filter and the cap *)

Lemma filter_sublist {A : Type} (f : A -> bool) (l : list A) :
  List.filter f l `sublist_of` l.
Proof.
  induction l as [|x l IH]; simpl; [constructor|].
  destruct (f x); [apply sublist_skip | apply sublist_cons]; exact IH.
Qed.

Section Ranking.
Context `{R : Runtime}.
Variables mediaTitle canonical : jsstring.

Lemma is_relevant_titled (l : candidate) :
  is_relevant mediaTitle (Some canonical) l
  = Normal (relevant mediaTitle canonical l).
Proof.
  unfold is_relevant, relevant.
  destruct (includes (toLowerCase (title l)) (toLowerCase mediaTitle));
    reflexivity.
Qed.

Lemma filter_array_titled (links : list candidate) :
  filter_array (is_relevant mediaTitle (Some canonical)) links
  = Normal (List.filter (relevant mediaTitle canonical) links).
Proof.
  induction links as [|l links IH]; simpl; [reflexivity|].
  rewrite is_relevant_titled, IH. simpl.
  destruct (relevant mediaTitle canonical l); reflexivity.
Qed.

Lemma filteredLinks_titled (links : list candidate) :
  filteredLinks mediaTitle (Some canonical) links
  = Normal (take 5 (List.filter (relevant mediaTitle canonical) links)).
Proof.
  unfold filteredLinks. rewrite filter_array_titled. simpl.
  rewrite slice_prefix by lia. reflexivity.
Qed.

Lemma relevant_substring (l : candidate) :
  relevant mediaTitle canonical l = true <->
  substring_of (toLowerCase mediaTitle) (toLowerCase (title l))
  \/ substring_of (toLowerCase (title l)) (toLowerCase canonical).
Proof.
  unfold relevant. rewrite orb_true_iff, !includes_substring. reflexivity.
Qed.

(** C1: a candidate is in the filtered list exactly when it is in the
    list given and its lower-cased label contains the lower-cased query
    title or is contained in the lower-cased canonical title; a label
    equal to the query title, or to the canonical title, passes. *)
Theorem relevance_filter_containment (links : list candidate) :
  exists kept : list candidate,
    filter_array (is_relevant mediaTitle (Some canonical)) links = Normal kept /\
    filteredLinks mediaTitle (Some canonical) links = Normal (take 5 kept) /\
    (forall c : candidate,
        c ∈ kept <->
        c ∈ links /\
        (substring_of (toLowerCase mediaTitle) (toLowerCase (title c))
         \/ substring_of (toLowerCase (title c)) (toLowerCase canonical))) /\
    (forall c : candidate, c ∈ links -> title c = mediaTitle -> c ∈ kept) /\
    (forall c : candidate, c ∈ links -> title c = canonical -> c ∈ kept).
Proof.
  exists (List.filter (relevant mediaTitle canonical) links).
  split; [apply filter_array_titled|].
  split; [apply filteredLinks_titled|].
  assert (Hin : forall c, c ∈ List.filter (relevant mediaTitle canonical) links
                <-> c ∈ links /\ relevant mediaTitle canonical c = true).
  { intros c. rewrite !list_elem_of_In. apply filter_In. }
  split; [|split].
  - intros c. rewrite Hin, relevant_substring. reflexivity.
  - intros c Hc Heq. apply Hin. split; [exact Hc|].
    unfold relevant. rewrite Heq, includes_refl. reflexivity.
  - intros c Hc Heq. apply Hin. split; [exact Hc|].
    unfold relevant. rewrite Heq, includes_refl. apply orb_true_r.
Qed.

(** C2: whatever the length of the candidate list, the filtered and
    capped list has at most 5 entries. *)
Theorem filteredLinks_at_most_5 (links : list candidate) :
  exists ranked : list candidate,
    filteredLinks mediaTitle (Some canonical) links = Normal ranked /\
    (length ranked <= 5)%nat.
Proof.
  eexists. split; [apply filteredLinks_titled|].
  rewrite length_take. lia.
Qed.

(** C3: the filtered and capped list is a subsequence of the candidate
    list: the entries kept stand in the order they had. *)
Theorem filteredLinks_sublist (links : list candidate) :
  exists ranked : list candidate,
    filteredLinks mediaTitle (Some canonical) links = Normal ranked /\
    ranked `sublist_of` links.
Proof.
  eexists. split; [apply filteredLinks_titled|].
  etransitivity; [apply sublist_take | apply filter_sublist].
Qed.

End Ranking.

(** ** The link extractor *)

Lemma scan_position_app (base : jsstring) (sel : selection)
    (links : list candidate) :
  scan_position base sel links = links ++ extracted base sel.
Proof.
  unfold extracted, scan_position.
  destruct (truthy _ && truthy _); [reflexivity | now rewrite app_nil_r].
Qed.

Lemma for_loop_scan (base : jsstring) (dom : nat -> selection)
    (i steps : nat) (links : list candidate) :
  for_loop i steps (fun i links => scan_position base (dom i) links) links
  = links ++ flat_map (fun i => extracted base (dom i)) (seq i steps).
Proof.
  revert i links. induction steps as [|n IH]; intros i links; simpl.
  - now rewrite app_nil_r.
  - rewrite IH, scan_position_app, <- app_assoc. reflexivity.
Qed.

Lemma scan_flat_map (base : jsstring) (dom : nat -> selection)
    (first bound : nat) :
  scan base dom first bound
  = flat_map (fun i => extracted base (dom i)) (seq first (bound - first)).
Proof. unfold scan. now rewrite for_loop_scan. Qed.

(** A position is kept or skipped by its label alone: the link is the
    base URL followed by something and so never empty. *)
Lemma extracted_by_label (base : jsstring) (sel : selection) :
  truthy base = true ->
  extracted base sel
  = if truthy (trim (text_of sel))
    then [{| title := truncateString (trim (text_of sel)) 100;
             link := base ++ interpolate (attr_href sel) |}]
    else [].
Proof.
  intros Hbase. unfold extracted, scan_position.
  destruct base as [|b base]; [discriminate|]. simpl.
  destruct (truthy (trim (text_of sel))); reflexivity.
Qed.

Lemma truncateString_100_truthy (s : jsstring) :
  truthy s = true -> truthy (truncateString s 100) = true.
Proof.
  intros Hs. destruct (Z.le_gt_cases (Z.of_nat (length s)) 100) as [Hle|Hgt].
  - now rewrite truncateString_short.
  - rewrite truncateString_long by lia.
    destruct s as [|c s]; [discriminate | reflexivity].
Qed.

Lemma scan_elem (base : jsstring) (dom : nat -> selection)
    (first bound : nat) (c : candidate) :
  truthy base = true ->
  c ∈ scan base dom first bound ->
  exists i : nat,
    (first <= i < bound)%nat /\
    truthy (trim (text_of (dom i))) = true /\
    title c = truncateString (trim (text_of (dom i))) 100 /\
    link c = base ++ interpolate (attr_href (dom i)).
Proof.
  intros Hbase. rewrite scan_flat_map, list_elem_of_In, in_flat_map.
  intros (i & Hi & Hc). apply in_seq in Hi. exists i.
  rewrite extracted_by_label in Hc by assumption.
  destruct (truthy (trim (text_of (dom i)))); [|destruct Hc].
  destruct Hc as [<-|[]]. simpl. repeat split; lia.
Qed.

(** The half of the invariant that holds: no candidate has an empty
    label. *)
Lemma scan_labels_not_empty (base : jsstring) (dom : nat -> selection)
    (first bound : nat) (c : candidate) :
  truthy base = true ->
  c ∈ scan base dom first bound -> truthy (title c) = true.
Proof.
  intros Hbase Hc. destruct (scan_elem _ _ _ _ _ Hbase Hc) as (i & _ & Ht & -> & _).
  apply truncateString_100_truthy, Ht.
Qed.

(** C4: an anchor without [href] at a scan position is not skipped: the
    candidate list holds it with the link [https://primewire.tfundefined]
    (and an anchor with an empty [href] with the bare base URL), in both
    extractors. *)
Theorem absent_href_is_not_skipped :
  primewireLinks page_without_href
  = [{| title := lit "Inception"; link := lit "https://primewire.tfundefined" |};
     {| title := lit "Heat"; link := lit "https://primewire.tf" |}] /\
  fmoviesLinks page_without_href
  = [{| title := lit "Inception";
        link := lit "https://en.fmoviesz-to.comundefined" |};
     {| title := lit "Heat"; link := lit "https://en.fmoviesz-to.com" |}].
Proof. split; reflexivity. Qed.

(** C9: the filter sees the label as the extractor stored it, cut to 100
    code units.  With a runtime that lower-cases ASCII as ECMAScript
    does, a page lists at position 2 a label of 101 code units that is
    the canonical title itself: the label as scraped passes the relevance
    test, the stored label does not, and the ranked list is empty. *)
Theorem truncated_label_misses_canonical_title (R : Runtime) :
  AsciiLowering R ->
  (forall (dom : nat -> selection) (c : candidate),
      c ∈ primewireLinks dom \/ c ∈ fmoviesLinks dom ->
      exists i : nat, title c = truncateString (trim (text_of (dom i))) 100) /\
  exists (raw mediaTitle canonical : jsstring) (dom : nat -> selection)
         (url : jsstring),
    dom 2%nat = [{| href := Some url; text := raw |}] /\
    (100 < length raw)%nat /\
    trim raw = canonical /\
    relevant mediaTitle canonical
             {| title := trim raw; link := primewire_base ++ url |} = true /\
    primewireLinks dom
    = [{| title := truncateString raw 100; link := primewire_base ++ url |}] /\
    filteredLinks mediaTitle (Some canonical) (primewireLinks dom) = Normal [].
Proof.
  intros HR. split.
  - intros dom c [Hc|Hc]; apply scan_elem in Hc; try reflexivity;
      destruct Hc as (i & _ & _ & Ht & _); exists i; exact Ht.
  - exists long_label, (lit "zzz"), long_label, page_with_long_label,
      (lit "/movie/1").
    split; [reflexivity|]. split; [simpl; lia|]. split; [reflexivity|].
    split; [|split].
    + unfold relevant. simpl title.
      change (trim long_label) with long_label.
      rewrite includes_refl. apply orb_true_r.
    + reflexivity.
    + rewrite filteredLinks_titled.
      change (primewireLinks page_with_long_label)
        with [{| title := truncateString long_label 100;
                 link := primewire_base ++ lit "/movie/1" |}].
      unfold relevant, List.filter. simpl title.
      rewrite (HR (truncateString long_label 100)) by reflexivity.
      rewrite (HR (lit "zzz")) by reflexivity.
      rewrite (HR long_label) by reflexivity.
      vm_compute. reflexivity.
Qed.

Lemma truncated_label_misses_canonical_title_witness :
  (forall (dom : nat -> selection) (c : candidate),
      c ∈ primewireLinks dom \/ c ∈ fmoviesLinks dom ->
      exists i : nat, title c = truncateString (trim (text_of (dom i))) 100) /\
  exists (raw mediaTitle canonical : jsstring) (dom : nat -> selection)
         (url : jsstring),
    dom 2%nat = [{| href := Some url; text := raw |}] /\
    (100 < length raw)%nat /\
    trim raw = canonical /\
    @relevant ascii_runtime mediaTitle canonical
             {| title := trim raw; link := primewire_base ++ url |} = true /\
    primewireLinks dom
    = [{| title := truncateString raw 100; link := primewire_base ++ url |}] /\
    @filteredLinks ascii_runtime mediaTitle (Some canonical) (primewireLinks dom)
    = Normal [].
Proof.
  apply (truncated_label_misses_canonical_title ascii_runtime).
  intros s _. reflexivity.
Defined.

(** ** The search URLs *)

Lemma encodeURIComponent_paren (c : code_unit) :
  is_paren c = true -> encodeURIComponent [c] = Normal [c].
Proof.
  unfold is_paren. rewrite orb_true_iff, !N.eqb_eq.
  intros [->| ->]; reflexivity.
Qed.

(** The callback leaves each parenthesis as it is, so the second
    [replace] changes nothing. *)
Lemma replace_parens_id (s : jsstring) : replace_parens s = Normal s.
Proof.
  induction s as [|c s IH]; cbn [replace_parens]; [reflexivity|].
  destruct (is_paren c) eqn:E.
  - rewrite (encodeURIComponent_paren c E). simpl. rewrite IH. reflexivity.
  - rewrite IH. reflexivity.
Qed.

Lemma encodeURIComponent_plus (s : jsstring) :
  encodeURIComponent (0x2B%N :: s)
  = cmap (app (lit "%2B")) (encodeURIComponent s).
Proof. reflexivity. Qed.

Lemma encodeURIComponent_keeps_paren (c : code_unit) (s : jsstring) :
  is_paren c = true ->
  encodeURIComponent (c :: s) = cmap (cons c) (encodeURIComponent s).
Proof.
  unfold is_paren. rewrite orb_true_iff, !N.eqb_eq.
  intros [->| ->]; reflexivity.
Qed.

Lemma plusForm_encode (mediaTitle : jsstring) :
  plusForm mediaTitle
  = encodeURIComponent (replace_whitespace mediaTitle (lit "+")).
Proof. unfold plusForm. rewrite replace_parens_id. reflexivity. Qed.

(** C8: for the title ["a (b)"] the keyword of the second search URL is
    ["a%2B(b)"]: the parentheses are not percent-encoded (the [replace]
    meant to encode them changes no string), and the ["+"] put in for the
    white space is itself encoded as ["%2B"]. *)
Theorem plusForm_keeps_parentheses :
  plusForm (lit "a (b)") = Normal (lit "a%2B(b)") /\
  (forall s : jsstring, replace_parens s = Normal s).
Proof. split; [reflexivity | exact replace_parens_id]. Qed.

(** ** The handler when the title is not known *)

Section NotFound.
Context `{R : Runtime}.
Variables (w : world) (omdbApiKey mediaTitle t : jsstring).
Variables (omdbResponse : body) (mediaData : media).

Lemma run_try_not_found (h : error -> prog unit) :
  encodeURIComponent mediaTitle = Normal t ->
  respond w (omdbUrl omdbApiKey t) = Normal omdbResponse ->
  json omdbResponse = Some mediaData ->
  Response mediaData = Some (lit "False") ->
  run w (try_catch (watch omdbApiKey mediaTitle) h)
  = let '(rest, r) :=
      match deliver w (Text (lit "Media not found.")) with
      | Normal u => ([], Normal u)
      | Throws e => run w (h e)
      end in
    (Requested (omdbUrl omdbApiKey t)
       :: Replied (Text (lit "Media not found.")) :: rest, r).
Proof.
  intros Henc Hget Hjson Hresp. unfold watch.
  rewrite Henc. cbn [lift bind await_get try_catch run].
  rewrite Hget. cbn [lift bind try_catch]. rewrite Hjson.
  cbn [lift bind try_catch]. unfold response_is_False. rewrite Hresp.
  change (strict_equal (lit "False") (lit "False")) with true.
  cbn [await_reply try_catch run].
  destruct (deliver w (Text (lit "Media not found."))) as [[]|e];
    cbn [lift try_catch run]; [reflexivity|].
  destruct (run w (h e)). reflexivity.
Qed.

(** C7: when the lookup answers with [Response] equal to ["False"], the
    handler requests nothing but the lookup and calls [reply] with
    ["Media not found."]; if that reply is delivered it is the only one,
    and the events end there: no search page is requested and no embed
    with ranked lists is built. *)
Theorem not_found_skips_scraping :
  truthy mediaTitle = true ->
  encodeURIComponent mediaTitle = Normal t ->
  respond w (omdbUrl omdbApiKey t) = Normal omdbResponse ->
  json omdbResponse = Some mediaData ->
  Response mediaData = Some (lit "False") ->
  let trace := fst (run w (interactionCreate omdbApiKey (watch_command mediaTitle))) in
  requests trace = [omdbUrl omdbApiKey t] /\
  head (replies trace) = Some (Text (lit "Media not found.")) /\
  (deliver w (Text (lit "Media not found.")) = Normal tt ->
   trace = [Requested (omdbUrl omdbApiKey t);
            Replied (Text (lit "Media not found."))]).
Proof.
  intros Htitle Henc Hget Hjson Hresp trace. subst trace.
  unfold interactionCreate, watch_command.
  cbn [isCommand commandName option_title negb].
  change (strict_equal (lit "watch") (lit "ping")) with false.
  change (strict_equal (lit "watch") (lit "watch")) with true.
  cbv iota. rewrite Htitle.
  rewrite (run_try_not_found _ Henc Hget Hjson Hresp).
  destruct (deliver w (Text (lit "Media not found."))) as [[]|e].
  - repeat split; reflexivity.
  - cbn [run await_reply].
    destruct (deliver w (Text (lit "An error occurred while fetching media data.")))
      as [[]|e']; cbn [lift run fst];
      (split; [|split]; [reflexivity | reflexivity | discriminate]).
Qed.

End NotFound.

Lemma not_found_skips_scraping_witness :
  let trace :=
    fst (run world_without_match
             (@interactionCreate ascii_runtime (lit "key")
                                 (watch_command (lit "Zzzznotreal999")))) in
  requests trace = [omdbUrl (lit "key") (lit "Zzzznotreal999")] /\
  head (replies trace) = Some (Text (lit "Media not found.")) /\
  trace = [Requested (omdbUrl (lit "key") (lit "Zzzznotreal999"));
           Replied (Text (lit "Media not found."))].
Proof.
  destruct (@not_found_skips_scraping ascii_runtime world_without_match
              (lit "key") (lit "Zzzznotreal999") (lit "Zzzznotreal999")
              {| json := Some no_match;
                 primewire_dom := page_with_long_label;
                 fmovies_dom := page_with_long_label |} no_match
              eq_refl eq_refl eq_refl eq_refl eq_refl) as (Hreq & Hrep & Hall).
  split; [exact Hreq|]. split; [exact Hrep|]. apply Hall. reflexivity.
Defined.

(** * Further properties of the code *)

(** ** [truncateString] at any maximum of 3 or more *)

(** X1: for a maximum of at least 3 the result has the smaller of the
    length of the string and the maximum as its length: it never exceeds
    the maximum and a short string keeps its length. *)
Theorem truncateString_length (s : jsstring) (maxLen : Z) :
  3 <= maxLen ->
  Z.of_nat (length (truncateString s maxLen))
  = Z.min (Z.of_nat (length s)) maxLen.
Proof.
  intros H3. destruct (Z.le_gt_cases (Z.of_nat (length s)) maxLen) as [Hle|Hgt].
  - rewrite truncateString_short by assumption. lia.
  - rewrite truncateString_long_length by lia. lia.
Qed.

Lemma truncateString_length_witness :
  Z.of_nat (length (truncateString (lit "The Godfather") 10))
  = Z.min (Z.of_nat (length (lit "The Godfather"))) 10.
Proof. apply (truncateString_length (lit "The Godfather") 10). lia. Defined.

(** X2: for a maximum of at least 3, a string longer than the maximum
    keeps its first [maxLen - 3] code units and ends with the three dots,
    and truncating the result again changes nothing. *)
Theorem truncateString_keeps_prefix (s : jsstring) (maxLen : Z) :
  3 <= maxLen -> maxLen < Z.of_nat (length s) ->
  take (Z.to_nat (maxLen - 3)) (truncateString s maxLen)
  = take (Z.to_nat (maxLen - 3)) s /\
  drop (Z.to_nat (maxLen - 3)) (truncateString s maxLen) = lit "..." /\
  truncateString (truncateString s maxLen) maxLen = truncateString s maxLen.
Proof.
  intros H3 Hlen.
  assert (Hk : length (take (Z.to_nat (maxLen - 3)) s) = Z.to_nat (maxLen - 3)).
  { rewrite length_take. lia. }
  split; [|split].
  - rewrite truncateString_long by assumption.
    rewrite take_app_le by lia. rewrite take_take. f_equal. lia.
  - rewrite truncateString_long by assumption.
    rewrite drop_app_length'; [reflexivity | symmetry; exact Hk].
  - apply truncateString_short.
    rewrite truncateString_long_length by assumption. lia.
Qed.

Lemma truncateString_keeps_prefix_witness :
  take (Z.to_nat (10 - 3)) (truncateString (lit "The Godfather") 10)
  = take (Z.to_nat (10 - 3)) (lit "The Godfather") /\
  drop (Z.to_nat (10 - 3)) (truncateString (lit "The Godfather") 10) = lit "..." /\
  truncateString (truncateString (lit "The Godfather") 10) 10
  = truncateString (lit "The Godfather") 10.
Proof.
  apply (truncateString_keeps_prefix (lit "The Godfather") 10); simpl; lia.
Defined.

(** ** [trim] *)



Lemma trimStart_all_white_space (s : jsstring) :
  forallb is_white_space s = true -> trimStart s = [].
Proof.
  induction s as [|c s IH]; simpl; [reflexivity|].
  destruct (is_white_space c); [exact IH | discriminate].
Qed.



Lemma trim_all_white_space (s : jsstring) :
  forallb is_white_space s = true -> trim s = [].
Proof.
  intros Hs. unfold trim. rewrite trimStart_all_white_space by assumption.
  reflexivity.
Qed.


(** ** The scan loops *)

Lemma extracted_length (base : jsstring) (sel : selection) :
  (length (extracted base sel) <= 1)%nat.
Proof.
  unfold extracted, scan_position.
  destruct (truthy _ && truthy _); simpl; lia.
Qed.

Lemma scan_length (base : jsstring) (dom : nat -> selection)
    (first bound : nat) :
  (length (scan base dom first bound) <= bound - first)%nat.
Proof.
  rewrite scan_flat_map. generalize (bound - first)%nat as n. revert first.
  intros first n. revert first.
  induction n as [|n IH]; intros first; simpl; [lia|].
  rewrite length_app. pose proof (extracted_length base (dom first)).
  pose proof (IH (Datatypes.S first)). lia.
Qed.

Lemma scan_ext (base : jsstring) (dom dom' : nat -> selection)
    (first bound : nat) :
  (forall i : nat, (first <= i < bound)%nat -> dom i = dom' i) ->
  scan base dom first bound = scan base dom' first bound.
Proof.
  intros Hdom. rewrite !scan_flat_map.
  assert (Hin : forall i, In i (seq first (bound - first)) -> dom i = dom' i).
  { intros i Hi. apply in_seq in Hi. apply Hdom. lia. }
  induction (seq first (bound - first)) as [|i l IH]; simpl; [reflexivity|].
  rewrite (Hin i) by (left; reflexivity). f_equal.
  apply IH. intros j Hj. apply Hin. right. exact Hj.
Qed.

Lemma scan_by_label (base : jsstring) (dom : nat -> selection)
    (first bound : nat) :
  truthy base = true ->
  scan base dom first bound
  = map (fun i => {| title := truncateString (trim (text_of (dom i))) 100;
                     link := base ++ interpolate (attr_href (dom i)) |})
        (List.filter (fun i => truthy (trim (text_of (dom i))))
                     (seq first (bound - first))).
Proof.
  intros Hbase. rewrite scan_flat_map.
  induction (seq first (bound - first)) as [|i l IH]; simpl; [reflexivity|].
  rewrite IH, extracted_by_label by assumption.
  destruct (truthy (trim (text_of (dom i)))); reflexivity.
Qed.

(** X3: however many entries the page has, each extractor returns at
    most 20 candidates. *)
Theorem scan_window_20 (dom : nat -> selection) :
  (length (primewireLinks dom) <= 20)%nat /\
  (length (fmoviesLinks dom) <= 20)%nat.
Proof.
  split; [apply (scan_length primewire_base dom 2 22)
         | apply (scan_length fmovies_base dom 1 21)].
Qed.

(** X4: the first extractor reads the positions 2 to 21 of the page and
    the second the positions 1 to 20, and nothing else: two pages that
    agree there give the same candidates. *)
Theorem scan_reads_its_window_only (dom dom' : nat -> selection) :
  ((forall i : nat, (2 <= i <= 21)%nat -> dom i = dom' i) ->
   primewireLinks dom = primewireLinks dom') /\
  ((forall i : nat, (1 <= i <= 20)%nat -> dom i = dom' i) ->
   fmoviesLinks dom = fmoviesLinks dom').
Proof.
  split; intros Hdom; apply scan_ext; intros i Hi; apply Hdom; lia.
Qed.

(** X5: the candidates are the positions of the window whose trimmed text
    is not empty, in the order of the page and with repetitions kept; each
    carries that text truncated to 100 and the base URL followed by the
    [href] of the first anchor ([undefined] when it has none). *)
Theorem extractors_in_page_order (dom : nat -> selection) :
  primewireLinks dom
  = map (fun i => {| title := truncateString (trim (text_of (dom i))) 100;
                     link := lit "https://primewire.tf"
                             ++ interpolate (attr_href (dom i)) |})
        (List.filter (fun i => truthy (trim (text_of (dom i)))) (seq 2 20)) /\
  fmoviesLinks dom
  = map (fun i => {| title := truncateString (trim (text_of (dom i))) 100;
                     link := lit "https://en.fmoviesz-to.com"
                             ++ interpolate (attr_href (dom i)) |})
        (List.filter (fun i => truthy (trim (text_of (dom i)))) (seq 1 20)).
Proof.
  split; [apply (scan_by_label primewire_base dom 2 22)
         | apply (scan_by_label fmovies_base dom 1 21)]; reflexivity.
Qed.



(** X7: a position whose anchors hold only white space, or where the
    selector matches nothing, adds no candidate, whatever the [href]. *)
Theorem blank_position_is_skipped (base : jsstring) (sel : selection)
    (links : list candidate) :
  forallb is_white_space (text_of sel) = true ->
  scan_position base sel links = links.
Proof.
  intros Hws. unfold scan_position.
  rewrite (trim_all_white_space _ Hws). simpl. rewrite andb_false_r. reflexivity.
Qed.

Lemma blank_position_is_skipped_witness :
  scan_position primewire_base
                [{| href := Some (lit "/movie/7"); text := lit "   " |}] []
  = [].
Proof.
  apply (blank_position_is_skipped primewire_base
           [{| href := Some (lit "/movie/7"); text := lit "   " |}] []).
  reflexivity.
Defined.

(** ** The encoded title *)

Ltac divmod a b :=
  let q := fresh "q" in
  let r := fresh "r" in
  pose proof (N.div_mod a b ltac:(discriminate));
  pose proof (N.mod_lt a b ltac:(discriminate));
  set (q := (a / b)%N) in *; set (r := (a mod b)%N) in *; clearbody q r.

Lemma cmap_Normal {A B : Type} (f : A -> B) (c : completion A) (b : B) :
  cmap f c = Normal b -> exists a : A, c = Normal a /\ b = f a.
Proof.
  destruct c as [a|e]; simpl; [|discriminate].
  intros [= <-]. exists a. split; reflexivity.
Qed.

Lemma hex_digit_unescaped (n : N) :
  (n < 16)%N -> is_unescaped (hex_digit n) = true.
Proof.
  intros Hn. unfold hex_digit, is_unescaped.
  destruct (n <? 10)%N eqn:E; [apply N.ltb_lt in E | apply N.ltb_ge in E];
    rewrite !orb_true_iff, !andb_true_iff, !N.leb_le, !N.eqb_eq; lia.
Qed.

Lemma percent_octet_url_safe (b : N) :
  (b < 256)%N -> forallb url_safe (percent_octet b) = true.
Proof.
  intros Hb. unfold percent_octet, url_safe. cbn [forallb].
  rewrite !hex_digit_unescaped; [reflexivity | |].
  - divmod b 16%N. lia.
  - divmod b 16%N. lia.
Qed.

Lemma utf8_octets (cp : N) :
  (cp < 0x110000)%N -> Forall (fun b => (b < 256)%N) (utf8 cp).
Proof.
  intros Hcp. unfold utf8.
  destruct (cp <? 0x80)%N eqn:E1; [apply N.ltb_lt in E1|apply N.ltb_ge in E1].
  { repeat constructor. lia. }
  destruct (cp <? 0x800)%N eqn:E2; [apply N.ltb_lt in E2|apply N.ltb_ge in E2].
  { divmod cp 0x40%N. repeat constructor; lia. }
  destruct (cp <? 0x10000)%N eqn:E3; [apply N.ltb_lt in E3|apply N.ltb_ge in E3].
  { divmod cp 0x1000%N. divmod (cp / 0x40)%N 0x40%N. divmod cp 0x40%N.
    repeat constructor; lia. }
  divmod cp 0x40000%N. divmod (cp / 0x1000)%N 0x40%N.
  divmod (cp / 0x40)%N 0x40%N. divmod cp 0x40%N.
  repeat constructor; lia.
Qed.

Lemma percent_encode_url_safe (cp : N) :
  (cp < 0x110000)%N -> forallb url_safe (percent_encode cp) = true.
Proof.
  intros Hcp. unfold percent_encode.
  induction (utf8_octets cp Hcp) as [|b l Hb _ IH]; cbn [flat_map];
    [reflexivity|].
  rewrite forallb_app, IH, andb_true_r.
  apply (percent_octet_url_safe b Hb).
Qed.

Lemma surrogate_pair_bound (c d : code_unit) :
  is_leading_surrogate c = true -> is_trailing_surrogate d = true ->
  (surrogate_pair c d < 0x110000)%N.
Proof.
  unfold is_leading_surrogate, is_trailing_surrogate, surrogate_pair.
  rewrite !andb_true_iff, !N.leb_le. lia.
Qed.

Lemma encodeURIComponent_url_safe_upto (n : nat) (s out : jsstring) :
  (length s <= n)%nat ->
  forallb is_code_unit s = true ->
  encodeURIComponent s = Normal out ->
  forallb url_safe out = true.
Proof.
  revert s out. induction n as [|n IH]; intros s out Hn Hs Henc.
  - destruct s; [|simpl in Hn; lia]. injection Henc as <-. reflexivity.
  - destruct s as [|c r]; [injection Henc as <-; reflexivity|].
    simpl in Hn, Hs, Henc. apply andb_true_iff in Hs as [Hc Hr].
    destruct (is_unescaped c) eqn:Eu.
    { apply cmap_Normal in Henc as (x & Hx & ->). simpl.
      unfold url_safe at 1. rewrite Eu. simpl.
      apply (IH r x); [lia | exact Hr | exact Hx]. }
    destruct (is_trailing_surrogate c); [discriminate|].
    destruct (is_leading_surrogate c) eqn:El.
    + destruct r as [|d r']; [discriminate|].
      destruct (is_trailing_surrogate d) eqn:Et; [|discriminate].
      apply cmap_Normal in Henc as (x & Hx & ->).
      simpl in Hr. apply andb_true_iff in Hr as [_ Hr'].
      rewrite forallb_app, percent_encode_url_safe
        by (apply surrogate_pair_bound; assumption).
      apply (IH r' x); [simpl in Hn; lia | exact Hr' | exact Hx].
    + apply cmap_Normal in Henc as (x & Hx & ->).
      rewrite forallb_app, percent_encode_url_safe.
      * apply (IH r x); [lia | exact Hr | exact Hx].
      * unfold is_code_unit in Hc. apply N.ltb_lt in Hc. lia.
Qed.

Lemma replace_runs_code_units (by_ : jsstring) (in_run : bool) (s : jsstring) :
  forallb is_code_unit by_ = true -> forallb is_code_unit s = true ->
  forallb is_code_unit (replace_runs by_ in_run s) = true.
Proof.
  intros Hby. revert in_run. induction s as [|c r IH]; intros in_run Hs;
    simpl; [reflexivity|].
  simpl in Hs. apply andb_true_iff in Hs as [Hc Hr].
  destruct (is_white_space c).
  - rewrite forallb_app, IH by assumption.
    destruct in_run; [reflexivity | rewrite Hby; reflexivity].
  - simpl. rewrite Hc, IH by assumption. reflexivity.
Qed.

(** X8: the title as it is put in each of the three request URLs holds
    only letters, digits, the marks [- _ . ! ~ * ' ( )] and percent signs:
    no white space and no [/ ? & # + =] that the URL would read as its
    own. *)
Theorem encoded_title_is_url_safe (mediaTitle out : jsstring) :
  forallb is_code_unit mediaTitle = true ->
  encodeURIComponent mediaTitle = Normal out
  \/ hyphenForm mediaTitle = Normal out
  \/ plusForm mediaTitle = Normal out ->
  forallb url_safe out = true.
Proof.
  intros Hunits [Henc|[Henc|Henc]].
  - exact (encodeURIComponent_url_safe_upto _ _ _ (le_n _) Hunits Henc).
  - unfold hyphenForm in Henc.
    refine (encodeURIComponent_url_safe_upto _ _ _ (le_n _) _ Henc).
    apply replace_runs_code_units; [reflexivity | exact Hunits].
  - rewrite plusForm_encode in Henc.
    refine (encodeURIComponent_url_safe_upto _ _ _ (le_n _) _ Henc).
    apply replace_runs_code_units; [reflexivity | exact Hunits].
Qed.

Lemma encoded_title_is_url_safe_witness :
  forallb url_safe (lit "Am%C3%A9lie%2B%26%2Bco") = true.
Proof.
  apply (encoded_title_is_url_safe (lit "Am" ++ [0xE9%N] ++ lit "lie & co")).
  - reflexivity.
  - right. right. reflexivity.
Defined.

Lemma not_leading_surrogate (c : code_unit) :
  (c < 0xD800 \/ 0xDBFF < c)%N -> is_leading_surrogate c = false.
Proof.
  intros Hc. destruct (is_leading_surrogate c) eqn:E; [|reflexivity].
  unfold is_leading_surrogate in E. rewrite andb_true_iff, !N.leb_le in E. lia.
Qed.

Lemma not_trailing_surrogate (c : code_unit) :
  (c < 0xDC00 \/ 0xDFFF < c)%N -> is_trailing_surrogate c = false.
Proof.
  intros Hc. destruct (is_trailing_surrogate c) eqn:E; [|reflexivity].
  unfold is_trailing_surrogate in E. rewrite andb_true_iff, !N.leb_le in E. lia.
Qed.

Lemma unescaped_is_ascii (c : code_unit) :
  is_unescaped c = true -> (c < 0x80)%N.
Proof.
  unfold is_unescaped.
  rewrite !orb_true_iff, !andb_true_iff, !N.leb_le, !N.eqb_eq. lia.
Qed.

Lemma white_space_not_surrogate (c : code_unit) :
  is_white_space c = true -> (c < 0xD800 \/ 0xDFFF < c)%N.
Proof.
  unfold is_white_space.
  rewrite !orb_true_iff, !andb_true_iff, !N.leb_le, !N.eqb_eq. lia.
Qed.

Lemma encodeURIComponent_wellformed_upto (n : nat) (s : jsstring) :
  (length s <= n)%nat ->
  match encodeURIComponent s with
  | Normal _ => isWellFormed s = true
  | Throws e => e = URIError /\ isWellFormed s = false
  end.
Proof.
  revert s. induction n as [|n IH]; intros s Hn.
  - destruct s; [reflexivity | simpl in Hn; lia].
  - destruct s as [|c r]; [reflexivity|]. simpl in Hn.
    cbn [encodeURIComponent isWellFormed].
    destruct (is_unescaped c) eqn:Eu.
    { apply unescaped_is_ascii in Eu.
      rewrite not_trailing_surrogate, not_leading_surrogate by lia.
      specialize (IH r ltac:(lia)).
      destruct (encodeURIComponent r); simpl; exact IH. }
    destruct (is_trailing_surrogate c); [split; reflexivity|].
    destruct (is_leading_surrogate c).
    + destruct r as [|d r']; [split; reflexivity|].
      destruct (is_trailing_surrogate d); [|split; reflexivity].
      specialize (IH r' ltac:(simpl in Hn; lia)).
      destruct (encodeURIComponent r'); simpl; exact IH.
    + specialize (IH r ltac:(lia)).
      destruct (encodeURIComponent r); simpl; exact IH.
Qed.

Lemma encodeURIComponent_wellformed (s : jsstring) :
  match encodeURIComponent s with
  | Normal _ => isWellFormed s = true
  | Throws e => e = URIError /\ isWellFormed s = false
  end.
Proof. exact (encodeURIComponent_wellformed_upto _ s (le_n _)). Qed.

Lemma encodeURIComponent_succeeds (s : jsstring) :
  isWellFormed s = true -> exists out : jsstring, encodeURIComponent s = Normal out.
Proof.
  intros Hs. pose proof (encodeURIComponent_wellformed s) as H.
  destruct (encodeURIComponent s) as [out|e]; [eauto|].
  destruct H as [_ H]. congruence.
Qed.

Lemma encodeURIComponent_throws (s : jsstring) :
  isWellFormed s = false -> encodeURIComponent s = Throws URIError.
Proof.
  intros Hs. pose proof (encodeURIComponent_wellformed s) as H.
  destruct (encodeURIComponent s) as [out|e]; [congruence|].
  destruct H as [-> _]. reflexivity.
Qed.

Lemma isWellFormed_replace_runs_upto (n : nat) (b : code_unit)
    (in_run : bool) (s : jsstring) :
  (b < 0x80)%N -> (length s <= n)%nat ->
  isWellFormed (replace_runs [b] in_run s) = isWellFormed s.
Proof.
  intros Hb. revert in_run s. induction n as [|n IH]; intros in_run s Hn.
  - destruct s; [reflexivity | simpl in Hn; lia].
  - destruct s as [|c r]; [reflexivity|]. simpl in Hn.
    cbn [replace_runs].
    destruct (is_white_space c) eqn:Ew.
    + apply white_space_not_surrogate in Ew.
      cbn [isWellFormed].
      rewrite (not_trailing_surrogate c), (not_leading_surrogate c) by lia.
      destruct in_run; cbn [app isWellFormed].
      * apply IH. lia.
      * rewrite (not_trailing_surrogate b), (not_leading_surrogate b) by lia.
        apply IH. lia.
    + cbn [isWellFormed].
      destruct (is_trailing_surrogate c); [reflexivity|].
      destruct (is_leading_surrogate c); [|apply IH; lia].
      destruct r as [|d r']; [reflexivity|].
      cbn [replace_runs]. destruct (is_white_space d) eqn:Ed.
      * apply white_space_not_surrogate in Ed.
        rewrite (not_trailing_surrogate d) by lia.
        cbn [app]. rewrite (not_trailing_surrogate b) by lia. reflexivity.
      * f_equal. apply IH. simpl in Hn. lia.
Qed.

Lemma forms_follow_encoding (mediaTitle t : jsstring) :
  encodeURIComponent mediaTitle = Normal t ->
  exists h p : jsstring,
    hyphenForm mediaTitle = Normal h /\ plusForm mediaTitle = Normal p.
Proof.
  intros Henc.
  pose proof (encodeURIComponent_wellformed mediaTitle) as Hw.
  rewrite Henc in Hw.
  destruct (encodeURIComponent_succeeds
              (replace_whitespace mediaTitle (lit "-"))) as [h Hh].
  { transitivity (isWellFormed mediaTitle); [|exact Hw].
    apply (isWellFormed_replace_runs_upto (length mediaTitle) 0x2D%N false);
      [reflexivity | apply le_n]. }
  destruct (encodeURIComponent_succeeds
              (replace_whitespace mediaTitle (lit "+"))) as [p Hp].
  { transitivity (isWellFormed mediaTitle); [|exact Hw].
    apply (isWellFormed_replace_runs_upto (length mediaTitle) 0x2B%N false);
      [reflexivity | apply le_n]. }
  exists h, p. split; [exact Hh | rewrite plusForm_encode; exact Hp].
Qed.

(** X9: the three encodings of the title succeed or fail together: all
    three return a string when no surrogate of the title stands alone, and
    all three raise [URIError] otherwise, so that a title is refused before
    the first request or not at all. *)
Theorem encodings_succeed_together (mediaTitle : jsstring) :
  if isWellFormed mediaTitle
  then exists t h p : jsstring,
         encodeURIComponent mediaTitle = Normal t /\
         hyphenForm mediaTitle = Normal h /\
         plusForm mediaTitle = Normal p
  else encodeURIComponent mediaTitle = Throws URIError /\
       hyphenForm mediaTitle = Throws URIError /\
       plusForm mediaTitle = Throws URIError.
Proof.
  assert (Hh : isWellFormed (replace_whitespace mediaTitle (lit "-"))
               = isWellFormed mediaTitle).
  { apply (isWellFormed_replace_runs_upto (length mediaTitle) 0x2D%N false);
      [reflexivity | apply le_n]. }
  assert (Hp : isWellFormed (replace_whitespace mediaTitle (lit "+"))
               = isWellFormed mediaTitle).
  { apply (isWellFormed_replace_runs_upto (length mediaTitle) 0x2B%N false);
      [reflexivity | apply le_n]. }
  unfold hyphenForm. rewrite plusForm_encode.
  destruct (isWellFormed mediaTitle) eqn:E.
  - destruct (encodeURIComponent_succeeds _ E) as [t Ht].
    destruct (encodeURIComponent_succeeds _ Hh) as [h Hh'].
    destruct (encodeURIComponent_succeeds _ Hp) as [p Hp'].
    exists t, h, p. repeat split; assumption.
  - repeat split; apply encodeURIComponent_throws; assumption.
Qed.

Lemma encodeURIComponent_unescaped (s : jsstring) :
  forallb is_unescaped s = true -> encodeURIComponent s = Normal s.
Proof.
  induction s as [|c r IH]; simpl; [reflexivity|].
  intros [Hc Hr]%andb_true_iff. rewrite Hc, (IH Hr). reflexivity.
Qed.

Lemma encodeURIComponent_hyphenated (in_run : bool) (s : jsstring) :
  forallb (fun c => is_unescaped c || is_white_space c) s = true ->
  encodeURIComponent (replace_runs (lit "-") in_run s)
  = Normal (replace_runs (lit "-") in_run s).
Proof.
  intros Hs. apply encodeURIComponent_unescaped. revert in_run.
  induction s as [|c r IH]; intros in_run; simpl; [reflexivity|].
  simpl in Hs. apply andb_true_iff in Hs as [Hc Hr].
  destruct (is_white_space c).
  - rewrite forallb_app, (IH Hr). destruct in_run; reflexivity.
  - rewrite orb_false_r in Hc. simpl. rewrite Hc, (IH Hr). reflexivity.
Qed.

Lemma encodeURIComponent_plussed (in_run : bool) (s : jsstring) :
  forallb (fun c => is_unescaped c || is_white_space c) s = true ->
  encodeURIComponent (replace_runs (lit "+") in_run s)
  = Normal (replace_runs (lit "%2B") in_run s).
Proof.
  revert in_run. induction s as [|c r IH]; intros in_run Hs; [reflexivity|].
  simpl in Hs. apply andb_true_iff in Hs as [Hc Hr].
  cbn [replace_runs]. destruct (is_white_space c).
  - destruct in_run; cbn [app].
    + apply (IH true Hr).
    + change (lit "+" ++ replace_runs (lit "+") true r)
        with (0x2B%N :: replace_runs (lit "+") true r).
      rewrite encodeURIComponent_plus, (IH true Hr). reflexivity.
  - rewrite orb_false_r in Hc. cbn [encodeURIComponent].
    rewrite Hc, (IH false Hr). reflexivity.
Qed.

(** X10: for a title of letters, digits, the marks [- _ . ! ~ * ' ( )] and
    white space, the first search URL carries the title with each run of
    white space turned into one hyphen, and the second carries it with
    each run turned into [%2B], the encoding of the plus sign. *)
Theorem search_forms_of_plain_title (mediaTitle : jsstring) :
  forallb (fun c => is_unescaped c || is_white_space c) mediaTitle = true ->
  hyphenForm mediaTitle = Normal (replace_whitespace mediaTitle (lit "-")) /\
  plusForm mediaTitle = Normal (replace_whitespace mediaTitle (lit "%2B")).
Proof.
  intros Hs. split.
  - apply encodeURIComponent_hyphenated, Hs.
  - rewrite plusForm_encode. apply encodeURIComponent_plussed, Hs.
Qed.

Lemma search_forms_of_plain_title_witness :
  hyphenForm (lit "The  Dark Knight (2008)")
  = Normal (lit "The-Dark-Knight-(2008)") /\
  plusForm (lit "The  Dark Knight (2008)")
  = Normal (lit "The%2BDark%2BKnight%2B(2008)").
Proof.
  apply (search_forms_of_plain_title (lit "The  Dark Knight (2008)")).
  reflexivity.
Defined.

Lemma replace_runs_no_white_space (b : code_unit) (in_run : bool) (s : jsstring) :
  is_white_space b = false ->
  forallb (fun c => negb (is_white_space c)) (replace_runs [b] in_run s) = true.
Proof.
  intros Hb. revert in_run. induction s as [|c r IH]; intros in_run; simpl;
    [reflexivity|].
  destruct (is_white_space c) eqn:E.
  - destruct in_run; simpl; [apply IH | rewrite Hb; apply IH].
  - simpl. rewrite E. apply IH.
Qed.

Lemma replace_runs_length (b : code_unit) (in_run : bool) (s : jsstring) :
  (length (replace_runs [b] in_run s) <= length s)%nat.
Proof.
  revert in_run. induction s as [|c r IH]; intros in_run; simpl; [lia|].
  destruct (is_white_space c).
  - destruct in_run; simpl; [pose proof (IH true) | pose proof (IH true)]; lia.
  - simpl. pose proof (IH false). lia.
Qed.

Lemma replace_runs_unchanged (by_ : jsstring) (in_run : bool) (s : jsstring) :
  forallb (fun c => negb (is_white_space c)) s = true ->
  replace_runs by_ in_run s = s.
Proof.
  revert in_run. induction s as [|c r IH]; intros in_run; simpl; [reflexivity|].
  intros [Hc Hr]%andb_true_iff. apply negb_true_iff in Hc.
  rewrite Hc, (IH false Hr). reflexivity.
Qed.

(** X11: replacing the runs of white space of a title by a code unit that
    is not white space (the hyphen of the first search URL, the plus of the
    second) leaves no white space and never makes the title longer; a
    title without white space is not changed. *)
Theorem replace_whitespace_result (mediaTitle : jsstring) (b : code_unit) :
  is_white_space b = false ->
  forallb (fun c => negb (is_white_space c))
          (replace_whitespace mediaTitle [b]) = true /\
  (length (replace_whitespace mediaTitle [b]) <= length mediaTitle)%nat /\
  (forallb (fun c => negb (is_white_space c)) mediaTitle = true ->
   replace_whitespace mediaTitle [b] = mediaTitle).
Proof.
  intros Hb. split; [|split].
  - apply replace_runs_no_white_space, Hb.
  - apply replace_runs_length.
  - apply replace_runs_unchanged.
Qed.

Lemma replace_whitespace_result_witness :
  forallb (fun c => negb (is_white_space c))
          (replace_whitespace (lit "Blade   Runner 2049") (lit "-")) = true /\
  (length (replace_whitespace (lit "Blade   Runner 2049") (lit "-"))
   <= length (lit "Blade   Runner 2049"))%nat /\
  (forallb (fun c => negb (is_white_space c)) (lit "Blade   Runner 2049") = true ->
   replace_whitespace (lit "Blade   Runner 2049") (lit "-")
   = lit "Blade   Runner 2049").
Proof.
  apply (replace_whitespace_result (lit "Blade   Runner 2049") 0x2D%N).
  reflexivity.
Defined.

(** ** The parts of the reply *)

Lemma strict_equal_eq (a b : jsstring) : strict_equal a b = true <-> a = b.
Proof.
  revert b. induction a as [|x a IH]; intros [|y b]; simpl;
    try (split; [discriminate | discriminate]); [split; reflexivity|].
  rewrite andb_true_iff, N.eqb_eq, IH. split.
  - intros [-> ->]. reflexivity.
  - intros [= -> ->]. split; reflexivity.
Qed.

Lemma strict_equal_neq (a b : jsstring) : a <> b -> strict_equal a b = false.
Proof.
  intros Hne. destruct (strict_equal a b) eqn:E; [|reflexivity].
  apply strict_equal_eq in E. contradiction.
Qed.

Lemma find_rotten_tomatoes_skip (p : rating -> bool) (pre : list rating)
    (rest : list rating) :
  (forall r : rating, r ∈ pre -> p r = false) ->
  List.find p (pre ++ rest) = List.find p rest.
Proof.
  induction pre as [|r pre IH]; intros Hpre; simpl; [reflexivity|].
  rewrite (Hpre r) by (left). apply IH. intros r' Hr'. apply Hpre. now right.
Qed.

Lemma is_rotten_tomatoes_source (r : rating) :
  match Source r with
  | Some s => strict_equal s (lit "Rotten Tomatoes")
  | None => false
  end = true <-> Source r = Some (lit "Rotten Tomatoes").
Proof.
  destruct (Source r) as [s|].
  - rewrite strict_equal_eq. split; [intros ->; reflexivity | intros [= ->]; reflexivity].
  - split; discriminate.
Qed.

(** X12: the Rotten Tomatoes line of the description is never empty: it
    is ["N/A"] when no rating names that source, and the value of the
    first rating that does when that value is a string that is not
    empty. *)
Theorem rotten_tomatoes_rating (ratings : list rating) :
  truthy (rotten_tomatoes ratings) = true /\
  ((forall r : rating, r ∈ ratings ->
       Source r <> Some (lit "Rotten Tomatoes")) ->
   rotten_tomatoes ratings = lit "N/A") /\
  (forall (pre : list rating) (r : rating) (post : list rating) (v : jsstring),
      ratings = pre ++ r :: post ->
      (forall r' : rating, r' ∈ pre ->
          Source r' <> Some (lit "Rotten Tomatoes")) ->
      Source r = Some (lit "Rotten Tomatoes") ->
      Value r = Some v -> truthy v = true ->
      rotten_tomatoes ratings = v).
Proof.
  set (p := fun r => match Source r with
                     | Some s => strict_equal s (lit "Rotten Tomatoes")
                     | None => false
                     end).
  assert (Hskip : forall l : list rating,
             (forall r, r ∈ l -> Source r <> Some (lit "Rotten Tomatoes")) ->
             forall r, r ∈ l -> p r = false).
  { intros l Hl r Hr. destruct (p r) eqn:E; [|reflexivity].
    apply is_rotten_tomatoes_source in E. destruct (Hl r Hr E). }
  split; [|split].
  - unfold rotten_tomatoes. destruct (List.find _ ratings) as [r|]; [|reflexivity].
    destruct (Value r) as [v|]; [|reflexivity].
    destruct (truthy v) eqn:E; [exact E | reflexivity].
  - intros Hnone. unfold rotten_tomatoes. fold p.
    rewrite <- (app_nil_r ratings).
    rewrite (find_rotten_tomatoes_skip p ratings [] (Hskip _ Hnone)).
    reflexivity.
  - intros pre r post v -> Hpre Hsrc Hval Hv. unfold rotten_tomatoes. fold p.
    rewrite (find_rotten_tomatoes_skip p pre (r :: post) (Hskip _ Hpre)).
    simpl. replace (p r) with true
      by (symmetry; apply is_rotten_tomatoes_source, Hsrc).
    rewrite Hval, Hv. reflexivity.
Qed.



(** ** The filter when the record has no title *)

Lemma filter_array_untitled `{R : Runtime} (mediaTitle : jsstring)
    (links : list candidate) :
  filter_array (is_relevant mediaTitle None) links
  = if forallb (fun l => includes (toLowerCase (title l))
                                  (toLowerCase mediaTitle)) links
    then Normal links
    else Throws TypeError.
Proof.
  induction links as [|l links IH]; simpl; [reflexivity|].
  unfold is_relevant at 1.
  destruct (includes (toLowerCase (title l)) (toLowerCase mediaTitle)); simpl;
    [|reflexivity].
  rewrite IH. destruct (forallb _ links); reflexivity.
Qed.

(** X14: when the metadata record has no [Title], the filter returns the
    first five candidates if every label contains the query title, and
    raises [TypeError] as soon as one label does not. *)
Theorem filteredLinks_without_title `{R : Runtime} (mediaTitle : jsstring)
    (links : list candidate) :
  filteredLinks mediaTitle None links
  = if forallb (fun l => includes (toLowerCase (title l))
                                  (toLowerCase mediaTitle)) links
    then Normal (take 5 links)
    else Throws TypeError.
Proof.
  unfold filteredLinks. rewrite filter_array_untitled.
  destruct (forallb _ links); [|reflexivity].
  simpl. rewrite slice_prefix by lia. reflexivity.
Qed.

(** ** The handler on every interaction *)

Ltac step :=
  cbn [lift bind await_get await_reply try_catch run fst snd].

Ltac caught reqs e :=
  split; [reflexivity|];
  split; [eexists; reflexivity|];
  exists reqs, [Logged e; Replied error_reply];
  split; [reflexivity|]; right; right; exists e; reflexivity.

(** X15: the [ping] command is answered with ["Pong!"] and nothing else
    happens: no request is made, whatever options the command carries. *)
Theorem ping_replies_pong `{R : Runtime} (w : world) (omdbApiKey : jsstring)
    (i : interaction) :
  isCommand i = true -> commandName i = lit "ping" ->
  fst (run w (interactionCreate omdbApiKey i)) = [Replied (Text (lit "Pong!"))].
Proof.
  intros Hcmd Hname. unfold interactionCreate. rewrite Hcmd, Hname.
  change (strict_equal (lit "ping") (lit "ping")) with true.
  cbn [negb]. step. destruct (deliver w _); reflexivity.
Qed.

Lemma ping_replies_pong_witness :
  fst (run offline_world
           (@interactionCreate ascii_runtime (lit "key")
              {| isCommand := true; commandName := lit "ping";
                 option_title := None |}))
  = [Replied (Text (lit "Pong!"))].
Proof.
  apply (@ping_replies_pong ascii_runtime offline_world (lit "key")
           {| isCommand := true; commandName := lit "ping";
              option_title := None |}); reflexivity.
Defined.

(** X16: an interaction that is not a command, or a command that is
    neither [ping] nor [watch], causes no request, no reply and no
    error. *)
Theorem other_interactions_are_ignored `{R : Runtime} (w : world)
    (omdbApiKey : jsstring) (i : interaction) :
  isCommand i = false
  \/ (commandName i <> lit "ping" /\ commandName i <> lit "watch") ->
  run w (interactionCreate omdbApiKey i) = ([], Normal tt).
Proof.
  intros [Hcmd|[Hping Hwatch]]; unfold interactionCreate.
  - rewrite Hcmd. reflexivity.
  - rewrite (strict_equal_neq _ _ Hping), (strict_equal_neq _ _ Hwatch).
    destruct (isCommand i); reflexivity.
Qed.

Lemma other_interactions_are_ignored_witness :
  run offline_world
      (@interactionCreate ascii_runtime (lit "key")
         {| isCommand := true; commandName := lit "help";
            option_title := Some (lit "Heat") |})
  = ([], Normal tt).
Proof.
  apply (@other_interactions_are_ignored ascii_runtime offline_world (lit "key")
           {| isCommand := true; commandName := lit "help";
              option_title := Some (lit "Heat") |}).
  right. split; discriminate.
Defined.

(** X17: a [watch] command whose title is missing or empty is answered
    with the request for a title, and no request is made. *)
Theorem watch_without_title `{R : Runtime} (w : world) (omdbApiKey : jsstring)
    (i : interaction) :
  isCommand i = true -> commandName i = lit "watch" ->
  option_title i = None \/ option_title i = Some [] ->
  fst (run w (interactionCreate omdbApiKey i))
  = [Replied (Text (lit "Please provide a movie or TV show title."))].
Proof.
  intros Hcmd Hname Htitle. unfold interactionCreate. rewrite Hcmd, Hname.
  change (strict_equal (lit "watch") (lit "ping")) with false.
  change (strict_equal (lit "watch") (lit "watch")) with true.
  cbn [negb]. destruct Htitle as [-> | ->]; cbn [truthy]; step;
    destruct (deliver w _); reflexivity.
Qed.

Lemma watch_without_title_witness :
  fst (run offline_world
           (@interactionCreate ascii_runtime (lit "key")
              {| isCommand := true; commandName := lit "watch";
                 option_title := Some [] |}))
  = [Replied (Text (lit "Please provide a movie or TV show title."))].
Proof.
  apply (@watch_without_title ascii_runtime offline_world (lit "key")
           {| isCommand := true; commandName := lit "watch";
              option_title := Some [] |});
    [reflexivity | reflexivity | right; reflexivity].
Defined.

(** X18: a [watch] command with a title, in a world that delivers every
    reply, ends without an error escaping; its requests are an initial
    part of the lookup, the first search and the second search, in that
    order and all before the reply; and after them comes exactly one of
    the not-found text, one embed with two fields, or a logged error
    followed by the error text. *)
Theorem watch_replies_once `{R : Runtime} (w : world)
    (omdbApiKey mediaTitle : jsstring) :
  truthy mediaTitle = true ->
  (forall p : payload, deliver w p = Normal tt) ->
  let result := run w (interactionCreate omdbApiKey (watch_command mediaTitle)) in
  snd result = Normal tt /\
  requests (fst result) `prefix_of` request_urls omdbApiKey mediaTitle /\
  exists (reqs : list jsstring) (rest : list event),
    fst result = map Requested reqs ++ rest /\
    (rest = [Replied (Text (lit "Media not found."))]
     \/ (exists e : embed,
           rest = [Replied (Embeds [e])] /\ length (embed_fields e) = 2%nat)
     \/ (exists e : error, rest = [Logged e; Replied error_reply])).
Proof.
  intros Htitle Hdel result. subst result.
  unfold interactionCreate, watch_command.
  cbn [isCommand commandName option_title negb].
  change (strict_equal (lit "watch") (lit "ping")) with false.
  change (strict_equal (lit "watch") (lit "watch")) with true.
  cbv iota. rewrite Htitle. unfold watch, request_urls.
  destruct (encodeURIComponent mediaTitle) as [t|e] eqn:Henc.
  2:{ step. rewrite Hdel. step.
      split; [reflexivity|]. split; [apply prefix_nil|].
      exists [], [Logged e; Replied error_reply]. split; [reflexivity|].
      right. right. exists e. reflexivity. }
  destruct (forms_follow_encoding _ _ Henc) as (h & p & Hh & Hp).
  rewrite Hh, Hp. step.
  destruct (respond w (omdbUrl omdbApiKey t)) as [b1|e1]; step;
    [|rewrite Hdel; step; caught [omdbUrl omdbApiKey t] e1].
  destruct (json b1) as [mediaData|]; step;
    [|rewrite Hdel; step; caught [omdbUrl omdbApiKey t] TypeError].
  destruct (response_is_False mediaData); step.
  { rewrite Hdel. step. split; [reflexivity|].
    split; [eexists; reflexivity|].
    exists [omdbUrl omdbApiKey t], [Replied (Text (lit "Media not found."))].
    split; [reflexivity|]. left. reflexivity. }
  destruct (respond w (lit "https://primewire.tf/search/" ++ h)) as [b2|e2]; step;
    [|rewrite Hdel; step; caught [omdbUrl omdbApiKey t; primewireUrl h] e2].
  destruct (respond w (lit "https://en.fmoviesz-to.com/filter?keyword=" ++ p))
    as [b3|e3]; step;
    [|rewrite Hdel; step;
      caught [omdbUrl omdbApiKey t; primewireUrl h; fmoviesUrl p] e3].
  destruct (filteredLinks mediaTitle (Title mediaData) (primewireLinks _))
    as [l1|e4]; step;
    [|rewrite Hdel; step;
      caught [omdbUrl omdbApiKey t; primewireUrl h; fmoviesUrl p] e4].
  destruct (filteredLinks mediaTitle (Title mediaData) (fmoviesLinks _))
    as [l2|e5]; step;
    [|rewrite Hdel; step;
      caught [omdbUrl omdbApiKey t; primewireUrl h; fmoviesUrl p] e5].
  destruct (description mediaData) as [text|e6]; step;
    [|rewrite Hdel; step;
      caught [omdbUrl omdbApiKey t; primewireUrl h; fmoviesUrl p] e6].
  rewrite Hdel. step. split; [reflexivity|].
  split; [eexists; rewrite app_nil_r; reflexivity|].
  eexists [omdbUrl omdbApiKey t; primewireUrl h; fmoviesUrl p], _.
  split; [reflexivity|]. right. left. eexists. split; reflexivity.
Qed.

Lemma watch_replies_once_witness :
  let result :=
    run offline_world
        (@interactionCreate ascii_runtime (lit "key") (watch_command (lit "Heat"))) in
  snd result = Normal tt /\
  requests (fst result) `prefix_of` request_urls (lit "key") (lit "Heat") /\
  exists (reqs : list jsstring) (rest : list event),
    fst result = map Requested reqs ++ rest /\
    (rest = [Replied (Text (lit "Media not found."))]
     \/ (exists e : embed,
           rest = [Replied (Embeds [e])] /\ length (embed_fields e) = 2%nat)
     \/ (exists e : error, rest = [Logged e; Replied error_reply])).
Proof.
  apply (@watch_replies_once ascii_runtime offline_world (lit "key") (lit "Heat"));
    [reflexivity | intros p; reflexivity].
Defined.

Ltac settle_replies :=
  repeat match goal with
         | |- context [deliver ?w ?p] => destruct (deliver w p); step
         end;
  cbn [requests flat_map app].

Ltac no_failed_request :=
  settle_replies;
  let Hu := fresh "Hu" in
  intros Hu;
  repeat (apply elem_of_cons in Hu as [Hu|Hu]; [subst; congruence|]);
  apply elem_of_nil in Hu; destruct Hu.

Ltac failed_request reqs :=
  settle_replies;
  let Hu := fresh "Hu" in
  intros Hu;
  repeat (apply elem_of_cons in Hu as [Hu|Hu];
          [subst; try congruence;
           match goal with
           | Hi : respond ?w ?x = Throws ?e1, Hf : respond ?w ?x = Throws ?e2 |- _ =>
               assert (e1 = e2) by congruence; subst; exists reqs; reflexivity
           end|]);
  apply elem_of_nil in Hu; destruct Hu.

(** X19: a request that fails is the last one the command makes: what
    follows it is the log of its error and the error text, so that a
    failed lookup is followed by no search and a failed first search by no
    second search. *)
Theorem failed_request_aborts `{R : Runtime} (w : world)
    (omdbApiKey mediaTitle u : jsstring) (e : error) :
  truthy mediaTitle = true ->
  u ∈ requests (fst (run w (interactionCreate omdbApiKey
                                               (watch_command mediaTitle)))) ->
  respond w u = Throws e ->
  exists reqs : list jsstring,
    fst (run w (interactionCreate omdbApiKey (watch_command mediaTitle)))
    = map Requested (reqs ++ [u]) ++ [Logged e; Replied error_reply].
Proof.
  intros Htitle Hu Hfail. revert Hu.
  unfold interactionCreate, watch_command.
  cbn [isCommand commandName option_title negb].
  change (strict_equal (lit "watch") (lit "ping")) with false.
  change (strict_equal (lit "watch") (lit "watch")) with true.
  cbv iota. rewrite Htitle. unfold watch.
  destruct (encodeURIComponent mediaTitle) as [t|e0]; step;
    [|no_failed_request].
  destruct (respond w (omdbUrl omdbApiKey t)) as [b1|e1] eqn:H1; step;
    [|failed_request (@nil (list N))].
  destruct (json b1) as [mediaData|]; step; [|no_failed_request].
  destruct (response_is_False mediaData); step; [no_failed_request|].
  destruct (hyphenForm mediaTitle) as [h|eh]; step; [|no_failed_request].
  destruct (respond w (lit "https://primewire.tf/search/" ++ h))
    as [b2|e2] eqn:H2; step;
    [|failed_request [omdbUrl omdbApiKey t]].
  destruct (plusForm mediaTitle) as [p|ep]; step; [|no_failed_request].
  destruct (respond w (lit "https://en.fmoviesz-to.com/filter?keyword=" ++ p))
    as [b3|e3] eqn:H3; step;
    [|failed_request [omdbUrl omdbApiKey t; primewireUrl h]].
  destruct (filteredLinks mediaTitle (Title mediaData) (primewireLinks _));
    step; [|no_failed_request].
  destruct (filteredLinks mediaTitle (Title mediaData) (fmoviesLinks _));
    step; [|no_failed_request].
  destruct (description mediaData); step; no_failed_request.
Qed.

Lemma failed_request_aborts_witness :
  exists reqs : list jsstring,
    fst (run offline_world
             (@interactionCreate ascii_runtime (lit "key")
                                 (watch_command (lit "Heat"))))
    = map Requested (reqs ++ [omdbUrl (lit "key") (lit "Heat")])
      ++ [Logged RequestError; Replied error_reply].
Proof.
  apply (@failed_request_aborts ascii_runtime offline_world (lit "key")
           (lit "Heat") (omdbUrl (lit "key") (lit "Heat")) RequestError).
  - reflexivity.
  - vm_compute. left.
  - reflexivity.
Defined.

(** X20: a title in which a surrogate stands alone is refused before
    anything is requested: the error is logged and the error text is the
    reply. *)
Theorem malformed_title_makes_no_request `{R : Runtime} (w : world)
    (omdbApiKey mediaTitle : jsstring) :
  truthy mediaTitle = true -> isWellFormed mediaTitle = false ->
  fst (run w (interactionCreate omdbApiKey (watch_command mediaTitle)))
  = [Logged URIError; Replied error_reply].
Proof.
  intros Htitle Hbad. unfold interactionCreate, watch_command.
  cbn [isCommand commandName option_title negb].
  change (strict_equal (lit "watch") (lit "ping")) with false.
  change (strict_equal (lit "watch") (lit "watch")) with true.
  cbv iota. rewrite Htitle. unfold watch.
  rewrite (encodeURIComponent_throws _ Hbad). step.
  destruct (deliver w _); reflexivity.
Qed.

Lemma malformed_title_makes_no_request_witness :
  fst (run (world_answering inception_body)
           (@interactionCreate ascii_runtime (lit "key")
                               (watch_command [0x48%N; 0xD83D%N])))
  = [Logged URIError; Replied error_reply].
Proof.
  apply (@malformed_title_makes_no_request ascii_runtime
           (world_answering inception_body) (lit "key") [0x48%N; 0xD83D%N]);
    reflexivity.
Defined.


